(** * create_graph.py: the temple knowledge-graph loader

    A shallow embedding of [src/create_graph.py] (class [TempleGraphDB]):
    the four text extractors, the null normalisation of the input document,
    and the loader that rebuilds the graph store record by record.

    Conventions of the embedding.
    - A Python [str] is a [string]; a character of type [ascii] stands for
      the code point of the same number, so the texts covered are those of
      code points U+0000..U+00FF.
    - A Python [set] of strings is a [gset string]; [list(s)] is
      [elements s], whose order carries no meaning, as in Python.
    - The graph store reached through the driver is an explicit value of
      type [store]: its nodes, its relationships and the labels whose
      [name] is declared unique.  The statements the source sends are given
      their Cypher reading ([CREATE] makes a node, [MERGE] matches or makes,
      [MATCH (n) DETACH DELETE n] empties the graph and keeps the
      constraints, a [CREATE] under a uniqueness constraint is refused on a
      name already taken); the store takes every parameter value as given
      and the connection does not fail.
    - A method that can raise returns an [outcome]; what was written to the
      store before the exception stays written.
    - [create_temple_node] never reads the result of its [CREATE], so a
      refusal reaches it only if [session.run] raises it.  [Graph.create_node]
      and [TempleGraphDB] take it as raised; [Reporting] gives the loader
      under either report, and the statements that depend on the report are
      made there.
    - [load_temple_data] starts from the parsed document; reading and
      parsing the file come before anything modelled here. *)

From Stdlib Require Import Ascii String NArith ZArith Bool List Lia.
From Stdlib Require Import Floats.SpecFloat.
From stdpp Require Import base gmap sets list strings.

Local Open Scope N_scope.

(** ** Python [str] methods *)

Module PyStr.

Definition ord (c : ascii) : N := N_of_ascii c.
Definition chr (n : N) : ascii := ascii_of_N n.

Definition between (lo hi n : N) : bool := (lo <=? n) && (n <=? hi).

(** [c.isspace()], which is also what [\s] matches in a [str] pattern:
    TAB..CR, FS..US, SPACE, NEL and NBSP. *)
Definition isspace (c : ascii) : bool :=
  let n := ord c in
  between 9 13 n || between 28 32 n || (n =? 133) || (n =? 160).

(** Letters that have a case: the ASCII letters, the two ordinal
    indicators, the micro sign and the Latin-1 letters. *)
Definition iscased (c : ascii) : bool :=
  let n := ord c in
  between 65 90 n || between 97 122 n || (n =? 170) || (n =? 181) ||
  (n =? 186) || between 192 214 n || between 216 246 n || between 248 255 n.

Definition char_lower (c : ascii) : ascii :=
  let n := ord c in
  if between 65 90 n || between 192 214 n || between 216 222 n
  then chr (n + 32) else c.

(** The upper-case form, where it is again below U+0100.  The micro sign,
    the sharp s and y-diaeresis have theirs elsewhere and are kept; none of
    them folds to an ASCII letter. *)
Definition char_upper (c : ascii) : ascii :=
  let n := ord c in
  if between 97 122 n || between 224 246 n || between 248 254 n
  then chr (n - 32) else c.

(** [s.lower()] *)
Fixpoint lower (s : string) : string :=
  match s with
  | EmptyString => EmptyString
  | String c s' => String (char_lower c) (lower s')
  end.

(** [s.title()]: a cased character is upper-cased when the character before
    it is not cased, and lower-cased otherwise. *)
Fixpoint title_from (previous_is_cased : bool) (s : string) : string :=
  match s with
  | EmptyString => EmptyString
  | String c s' =>
      String (if previous_is_cased then char_lower c else char_upper c)
             (title_from (iscased c) s')
  end.

Definition title (s : string) : string := title_from false s.

(** [s.lstrip()], [s.rstrip()] and [s.strip()] *)
Fixpoint lstrip (s : string) : string :=
  match s with
  | EmptyString => EmptyString
  | String c s' => if isspace c then lstrip s' else s
  end.

Fixpoint rstrip (s : string) : string :=
  match s with
  | EmptyString => EmptyString
  | String c s' =>
      match rstrip s' with
      | EmptyString => if isspace c then EmptyString else String c EmptyString
      | t => String c t
      end
  end.

Definition strip (s : string) : string := rstrip (lstrip s).

(** [len(s)] *)
Definition len (s : string) : nat := String.length s.

(** [s.startswith(p)] *)
Fixpoint startswith (p s : string) : bool :=
  match p, s with
  | EmptyString, _ => true
  | String a p', String b s' => if Ascii.eqb a b then startswith p' s' else false
  | String _ _, EmptyString => false
  end.

(** [needle in hay] *)
Fixpoint contains (needle hay : string) : bool :=
  startswith needle hay ||
  match hay with
  | EmptyString => false
  | String _ hay' => contains needle hay'
  end.

(** [sep.join(parts)] *)
Fixpoint join (sep : string) (parts : list string) : string :=
  match parts with
  | [] => EmptyString
  | [p] => p
  | p :: rest => p +:+ sep +:+ join sep rest
  end.

(** [not s]: the empty string is the only false one. *)
Definition is_empty (s : string) : bool :=
  match s with EmptyString => true | _ => false end.

End PyStr.

(** ** The fragment of Python's [re] the patterns are written in *)

Module Re.

Import PyStr.

(** An item between square brackets. *)
Inductive set_item : Type :=
  | SRange (lo hi : ascii)   (* lo-hi *)
  | SChar (c : ascii)        (* a single character *)
  | SSpace.                  (* \s *)

(** Patterns, constructor by constructor as they are spelled. *)
Inductive regex : Type :=
  | Empty                           (* nothing *)
  | Lit (c : ascii)                 (* an ordinary character *)
  | Space                           (* \s *)
  | CharSet (items : list set_item) (* [...] *)
  | Seq (r1 r2 : regex)             (* r1r2 *)
  | Alt (r1 r2 : regex)             (* r1|r2 *)
  | Star (r : regex)                (* r* *)
  | Plus (r : regex)                (* r+ *)
  | Opt (r : regex)                 (* r? *)
  | NonCapture (r : regex)          (* (?:r) *)
  | Capture (r : regex).            (* (r) *)

(** The characters of a word one after the other. *)
Fixpoint word (s : string) : regex :=
  match s with
  | EmptyString => Empty
  | String c EmptyString => Lit c
  | String c s' => Seq (Lit c) (word s')
  end.

(** The pattern text an expression is the reading of. *)
Definition show_item (i : set_item) : string :=
  match i with
  | SRange lo hi => String lo (String "-" (String hi EmptyString))
  | SChar c => String c EmptyString
  | SSpace => "\s"
  end.

Fixpoint show (r : regex) : string :=
  match r with
  | Empty => EmptyString
  | Lit c => String c EmptyString
  | Space => "\s"
  | CharSet items => "[" +:+ String.concat "" (map show_item items) +:+ "]"
  | Seq r1 r2 => show r1 +:+ show r2
  | Alt r1 r2 => show r1 +:+ "|" +:+ show r2
  | Star r => show r +:+ "*"
  | Plus r => show r +:+ "+"
  | Opt r => show r +:+ "?"
  | NonCapture r => "(?:" +:+ show r +:+ ")"
  | Capture r => "(" +:+ show r +:+ ")"
  end.

(** [show] loses nothing on expressions that are bracketed as the pattern
    text is: a repetition applies to one character, set or group, and an
    alternative is not a direct part of a sequence or of a repetition. *)
Definition atom (r : regex) : bool :=
  match r with
  | Lit _ | Space | CharSet _ | NonCapture _ | Capture _ => true
  | Empty | Seq _ _ | Alt _ _ | Star _ | Plus _ | Opt _ => false
  end.

Definition is_alt (r : regex) : bool :=
  match r with Alt _ _ => true | _ => false end.

Fixpoint bracketed (r : regex) : bool :=
  match r with
  | Empty | Lit _ | Space | CharSet _ => true
  | Seq r1 r2 =>
      negb (is_alt r1) && negb (is_alt r2) && bracketed r1 && bracketed r2
  | Alt r1 r2 => bracketed r1 && bracketed r2
  | Star r | Plus r | Opt r => atom r && bracketed r
  | NonCapture r | Capture r => bracketed r
  end.

(** *** Matching *)

Definition item_has (c : ascii) (i : set_item) : bool :=
  match i with
  | SRange lo hi => between (ord lo) (ord hi) (ord c)
  | SChar d => Ascii.eqb c d
  | SSpace => isspace c
  end.

(** With [re.IGNORECASE] an ordinary character matches in either case, and
    a set matches a character that belongs to it as it is, lower-cased or
    upper-cased. *)
Definition lit_matches (ignorecase : bool) (p c : ascii) : bool :=
  if ignorecase then Ascii.eqb (char_lower c) (char_lower p)
  else Ascii.eqb c p.

Definition set_matches (ignorecase : bool) (items : list set_item)
    (c : ascii) : bool :=
  existsb (item_has c) items ||
  (ignorecase &&
   (existsb (item_has (char_lower c)) items ||
    existsb (item_has (char_upper c)) items)).

(** The text of group 1, once the group has been left. *)
Definition group := option string.

Section Matcher.

Context {A : Type}.

(** What is left to match after an expression: it receives the rest of the
    text and the group, and fails with [None]. *)
Definition cont : Type := string -> group -> option A.

Definition one_char (p : ascii -> bool) (s : string) (g : group)
    (k : cont) : option A :=
  match s with
  | String c s' => if p c then k s' g else None
  | EmptyString => None
  end.

(** A greedy repetition: one more round of [body] is tried first, the rest
    of the pattern after it, and the rest of the pattern alone when that
    fails.  A round that consumes nothing ends the repetition.  No more than
    [len s] rounds can consume a character each. *)
Fixpoint repeat (body : string -> group -> cont -> option A)
    (rounds : nat) (s : string) (g : group) (k : cont) : option A :=
  match rounds with
  | O => k s g
  | S rounds' =>
      match body s g (fun s' g' =>
                        if (len s' <? len s)%nat
                        then repeat body rounds' s' g' k
                        else None) with
      | Some a => Some a
      | None => k s g
      end
  end.

(** The backtracking matcher: alternatives left to right, repetitions
    greedy, the first way through the whole pattern wins. *)
Fixpoint run (ignorecase : bool) (r : regex) {struct r}
    : string -> group -> cont -> option A :=
  match r with
  | Empty => fun s g k => k s g
  | Lit p => one_char (lit_matches ignorecase p)
  | Space => one_char isspace
  | CharSet items => one_char (set_matches ignorecase items)
  | Seq r1 r2 =>
      fun s g k =>
        run ignorecase r1 s g (fun s' g' => run ignorecase r2 s' g' k)
  | Alt r1 r2 =>
      fun s g k =>
        match run ignorecase r1 s g k with
        | Some a => Some a
        | None => run ignorecase r2 s g k
        end
  | Star r1 => fun s g k => repeat (run ignorecase r1) (len s) s g k
  | Plus r1 =>
      fun s g k =>
        run ignorecase r1 s g
            (fun s' g' => repeat (run ignorecase r1) (len s') s' g' k)
  | Opt r1 =>
      fun s g k =>
        match run ignorecase r1 s g k with
        | Some a => Some a
        | None => k s g
        end
  | NonCapture r1 => run ignorecase r1
  | Capture r1 =>
      fun s g k =>
        run ignorecase r1 s g
            (fun s' _ => k s' (Some (String.substring 0 (len s - len s') s)))
  end.

End Matcher.

(** [pattern.match] at the start of [s]: the rest of the text after the
    match and group 1. *)
Definition match_here (ignorecase : bool) (r : regex) (s : string)
    : option (string * group) :=
  run ignorecase r s None (fun s' g => Some (s', g)).

(** [re.findall] for a pattern with one group: the matches are searched
    from left to right without overlap, and each contributes the text of
    its group (empty if the group took no part).  After an empty match the
    search moves on by one character; no pattern of the extractors matches
    the empty text. *)
Fixpoint findall_from (positions : nat) (ignorecase : bool) (r : regex)
    (s : string) : list string :=
  match positions with
  | O => []
  | S positions' =>
      match match_here ignorecase r s with
      | Some (s', g) =>
          default EmptyString g ::
          (if (len s' <? len s)%nat
           then findall_from positions' ignorecase r s'
           else match s with
                | EmptyString => []
                | String _ t => findall_from positions' ignorecase r t
                end)
      | None =>
          match s with
          | EmptyString => []
          | String _ t => findall_from positions' ignorecase r t
          end
      end
  end.

Definition IGNORECASE : bool := true.

Definition findall (r : regex) (text : string) (flags : bool) : list string :=
  findall_from (S (len text)) flags r text.

End Re.

(** ** Text Entity Extractor *)

Module Extractor.

Import PyStr Re.

Local Open Scope nat_scope.

Definition A_Z : set_item := SRange "A" "Z".
Definition a_z : set_item := SRange "a" "z".

(** [[A-Z][a-zA-Z]+] *)
Definition capitalized_word : regex :=
  Seq (CharSet [A_Z]) (Plus (CharSet [a_z; A_Z])).

(** [[A-Z][a-zA-Z]+(?:\s+[A-Z][a-zA-Z]+)*] *)
Definition capitalized_phrase : regex :=
  Seq capitalized_word (Star (NonCapture (Seq (Plus Space) capitalized_word))).

Definition deity_patterns : list regex :=
  [ Seq (NonCapture (Alt (word "Lord") (Alt (word "Goddess")
                       (Alt (word "Sri") (word "Shri")))))
        (Seq (Plus Space) (Capture capitalized_phrase));
    Seq (Capture capitalized_phrase)
        (Seq (Plus Space)
             (NonCapture (Alt (word "Temple") (Alt (word "Swamy")
                                                   (word "Amman")))));
    Seq (word "dedicated to") (Seq (Plus Space) (Capture capitalized_phrase));
    Seq (word "deity")
        (Seq (Plus (CharSet [SChar ":"; SSpace])) (Capture capitalized_phrase)) ].

Definition common_deities : list string :=
  [ "Shiva"; "Vishnu"; "Krishna"; "Rama"; "Jagannath"; "Venkateswara";
    "Balaji"; "Meenakshi"; "Parvati"; "Lakshmi"; "Saraswati"; "Ganesha";
    "Hanuman"; "Murugan"; "Subhadra"; "Balabhadra"; "Sundareshwara" ].

(** [s.add(x)] *)
Definition add (x : string) (s : gset string) : gset string := {[ x ]} ∪ s.

(** The body of the two nested [for] loops of [extract_deities] and
    [extract_festivals]: every match of every pattern, kept when its
    stripped length exceeds [min_len], stripped and title-cased. *)
Definition add_match (min_len : nat) (found : gset string) (m : string)
    : gset string :=
  if min_len <? len (strip m) then add (title (strip m)) found else found.

Definition add_matches (min_len : nat) (text : string)
    (found : gset string) (pattern : regex) : gset string :=
  foldl (add_match min_len) found (findall pattern text IGNORECASE).

(** The gazetteer loop of [extract_deities]. *)
Definition add_known (text : string) (found : gset string) (deity : string)
    : gset string :=
  if contains (lower deity) (lower text) then add deity found else found.

Definition deity_set (text : string) : gset string :=
  let deities := ∅ in
  let deities := foldl (add_matches 2 text) deities deity_patterns in
  let deities := foldl (add_known text) deities common_deities in
  deities.

Definition extract_deities (text : string) : list string :=
  if is_empty text then [] else elements (deity_set text).

Definition scripture_patterns : list regex :=
  [ Seq (Capture (Seq (CharSet [A_Z]) (Plus (CharSet [a_z; A_Z]))))
        (Seq (Plus Space) (word "Purana"));
    Capture (Alt (word "Mahabharata") (Alt (word "Ramayana")
              (Alt (word "Bhagavad Gita") (Seq (word "Veda") (Opt (Lit "s"))))));
    Capture (Alt (word "Skanda Purana") (Alt (word "Padma Purana")
              (Alt (word "Varaha Purana") (word "Bhagavata Purana")))) ].

(** The loop body of [extract_scriptures]: no length filter. *)
Definition add_scripture (found : gset string) (m : string) : gset string :=
  add (title (strip m)) found.

Definition scripture_set (text : string) : gset string :=
  foldl (fun scriptures pattern =>
           foldl add_scripture scriptures (findall pattern text IGNORECASE))
        ∅ scripture_patterns.

Definition extract_scriptures (text : string) : list string :=
  if is_empty text then [] else elements (scripture_set text).

Definition extract_architectural_style (text : string) : list string :=
  if is_empty text then [] else
  let styles := [] in
  let styles := if contains "dravidian" (lower text)
                then styles ++ ["Dravidian"] else styles in
  let styles := if contains "kalinga" (lower text)
                then styles ++ ["Kalinga"] else styles in
  let styles := if contains "chola" (lower text)
                then styles ++ ["Chola"] else styles in
  let styles := if contains "pallava" (lower text)
                then styles ++ ["Pallava"] else styles in
  let styles := if contains "vijayanagara" (lower text)
                then styles ++ ["Vijayanagara"] else styles in
  styles.

Definition festival_patterns : list regex :=
  [ Seq (Capture capitalized_phrase) (Seq (Plus Space) (word "festival"));
    Seq (word "festival")
        (Seq (Plus (CharSet [SChar ":"; SSpace])) (Capture capitalized_phrase));
    Capture (Alt (word "Brahmotsavam") (Alt (word "Navaratri")
              (Alt (word "Rath Yatra") (word "Tirukalyanam")))) ].

Definition festival_set (text : string) : gset string :=
  foldl (add_matches 3 text) ∅ festival_patterns.

Definition extract_festivals (text : string) : list string :=
  if is_empty text then [] else elements (festival_set text).

End Extractor.

(** ** The input document *)

Module Json.

(** What [json.load] returns: [None], [bool], [int], [float], [str], [list]
    and [dict].  A [dict] keeps its items in insertion order, so it is the
    list of its items; its keys are strings and occur once. *)
#[local] Unset Elimination Schemes.
Inductive json : Type :=
  | JNull
  | JBool (b : bool)
  | JInt (z : Z)
  | JFloat (f : spec_float)
  | JStr (s : string)
  | JList (elems : list json)
  | JDict (items : list (string * json)).
#[local] Set Elimination Schemes.

(** The local function [replace_none] of [load_temple_data]. *)
Fixpoint replace_none (obj : json) : json :=
  match obj with
  | JDict items => JDict (map (fun kv => (fst kv, replace_none (snd kv))) items)
  | JList elems => JList (map replace_none elems)
  | JNull => JStr ""
  | _ => obj
  end.

(** Induction on documents that reaches the elements of lists and the
    values of dicts. *)
Section json_induction.

Variable P : json -> Prop.
Hypothesis P_null : P JNull.
Hypothesis P_bool : forall b, P (JBool b).
Hypothesis P_int : forall z, P (JInt z).
Hypothesis P_float : forall f, P (JFloat f).
Hypothesis P_str : forall s, P (JStr s).
Hypothesis P_list : forall elems, Forall P elems -> P (JList elems).
Hypothesis P_dict :
  forall items, Forall (fun kv => P (snd kv)) items -> P (JDict items).

Fixpoint json_deep_ind (obj : json) : P obj :=
  match obj with
  | JNull => P_null
  | JBool b => P_bool b
  | JInt z => P_int z
  | JFloat f => P_float f
  | JStr s => P_str s
  | JList elems =>
      P_list elems
        ((fix go (l : list json) : Forall P l :=
            match l with
            | [] => @List.Forall_nil _ P
            | x :: l' => @List.Forall_cons _ P x l' (json_deep_ind x) (go l')
            end) elems)
  | JDict items =>
      P_dict items
        ((fix go (l : list (string * json))
            : Forall (fun kv => P (snd kv)) l :=
            match l with
            | [] => @List.Forall_nil _ _
            | kv :: l' =>
                @List.Forall_cons _ (fun kv => P (snd kv)) kv l'
                                  (json_deep_ind (snd kv)) (go l')
            end) items)
  end.

End json_induction.

#[local] Unset Elimination Schemes.
(** The normalisation as the specification words it: a null becomes the
    empty string, every other scalar stays, a list keeps its length and
    order and a dict its keys and their order, element by element. *)
Inductive normalised : json -> json -> Prop :=
  | norm_null : normalised JNull (JStr "")
  | norm_bool b : normalised (JBool b) (JBool b)
  | norm_int z : normalised (JInt z) (JInt z)
  | norm_float f : normalised (JFloat f) (JFloat f)
  | norm_str s : normalised (JStr s) (JStr s)
  | norm_list elems elems' :
      Forall2 normalised elems elems' ->
      normalised (JList elems) (JList elems')
  | norm_dict items items' :
      Forall2 (fun kv kv' => fst kv = fst kv' /\ normalised (snd kv) (snd kv'))
              items items' ->
      normalised (JDict items) (JDict items').
#[local] Set Elimination Schemes.

(** A null somewhere in the document. *)
Fixpoint has_null (obj : json) : bool :=
  match obj with
  | JNull => true
  | JList elems => existsb has_null elems
  | JDict items => existsb (fun kv => has_null (snd kv)) items
  | _ => false
  end.

(** Where a value sits in a document: under a key, or at an index. *)
Inductive step : Type :=
  | Key (k : string)
  | Index (i : nat).

Fixpoint assoc {V : Type} (k : string) (items : list (string * V)) : option V :=
  match items with
  | [] => None
  | (k', v) :: rest => if String.eqb k k' then Some v else assoc k rest
  end.

Definition child (s : step) (obj : json) : option json :=
  match s, obj with
  | Key k, JDict items => assoc k items
  | Index i, JList elems => nth_error elems i
  | _, _ => None
  end.

Fixpoint at_path (p : list step) (obj : json) : option json :=
  match p with
  | [] => Some obj
  | s :: p' =>
      match child s obj with
      | Some obj' => at_path p' obj'
      | None => None
      end
  end.

(** [obj.get(key, default)]; [None] stands for the [AttributeError] of an
    object that is not a dict. *)
Definition get (obj : json) (key : string) (default_ : json) : option json :=
  match obj with
  | JDict items => Some (default default_ (assoc key items))
  | _ => None
  end.

(** [d[key] = value] *)
Fixpoint dict_set (key : string) (value : json) (items : list (string * json))
    : list (string * json) :=
  match items with
  | [] => [(key, value)]
  | (k, v) :: rest =>
      if String.eqb key k then (k, value) :: rest
      else (k, v) :: dict_set key value rest
  end.

(** The truth value of an object, as [if obj:] takes it. *)
Definition truthy (obj : json) : bool :=
  match obj with
  | JNull => false
  | JBool b => b
  | JInt z => negb (Z.eqb z 0)
  | JFloat (S754_zero _) => false
  | JFloat _ => true
  | JStr s => negb (PyStr.is_empty s)
  | JList elems => match elems with [] => false | _ => true end
  | JDict items => match items with [] => false | _ => true end
  end.

(** The objects a [for] loop draws from [obj]: the elements of a list, the
    keys of a dict, the characters of a string; [None] stands for the
    [TypeError] of an object that cannot be iterated. *)
Definition iterate (obj : json) : option (list json) :=
  match obj with
  | JList elems => Some elems
  | JDict items => Some (map (fun kv => JStr (fst kv)) items)
  | JStr s =>
      Some (map (fun c => JStr (String c EmptyString)) (list_ascii_of_string s))
  | _ => None
  end.

(** Equality of two values, as the store compares a property with a
    parameter.  Names are strings in the documents the loader is written
    for; the other values are compared by their structure. *)
Fixpoint value_eqb (a b : json) : bool :=
  match a, b with
  | JNull, JNull => true
  | JBool x, JBool y => Bool.eqb x y
  | JInt x, JInt y => Z.eqb x y
  | JFloat x, JFloat y => SFeqb x y
  | JStr x, JStr y => String.eqb x y
  | JList xs, JList ys =>
      (fix all2 (xs ys : list json) : bool :=
         match xs, ys with
         | [], [] => true
         | x :: xs', y :: ys' => value_eqb x y && all2 xs' ys'
         | _, _ => false
         end) xs ys
  | JDict xs, JDict ys =>
      (fix all2 (xs ys : list (string * json)) : bool :=
         match xs, ys with
         | [], [] => true
         | x :: xs', y :: ys' =>
             String.eqb (fst x) (fst y) && value_eqb (snd x) (snd y) &&
             all2 xs' ys'
         | _, _ => false
         end) xs ys
  | _, _ => false
  end.

End Json.

(** ** The graph store *)

Module Graph.

Import Json.

Local Open Scope nat_scope.

Inductive label : Type :=
  | Temple | State | Deity | Scripture | ArchitecturalStyle | Festival.

Inductive rel_type : Type :=
  | LOCATED_IN | DEDICATED_TO | MENTIONED_IN | HAS_STYLE | CELEBRATES.

#[global] Instance label_eq_dec : EqDecision label.
Proof. solve_decision. Defined.

#[global] Instance rel_type_eq_dec : EqDecision rel_type.
Proof. solve_decision. Defined.

(** A node has an identity of its own, a label and its properties; a
    relationship joins two node identities. *)
Record node : Type := Node {
  node_id : nat;
  node_label : label;
  node_props : list (string * json)
}.

Record edge : Type := Edge {
  edge_from : nat;
  edge_type : rel_type;
  edge_to : nat
}.

#[global] Instance edge_eq_dec : EqDecision edge.
Proof. solve_decision. Defined.

(** The store: its nodes and relationships in the order they were created,
    and the labels whose [name] has been declared unique. *)
Record store : Type := Store {
  nodes : list node;
  edges : list edge;
  unique_name : list label
}.

(** A statement either completes or raises; what it wrote before raising
    stays written. *)
Inductive outcome : Type :=
  | Returned (s : store)
  | Raised (s : store).

Definition action : Type := store -> outcome.

Definition final (o : outcome) : store :=
  match o with Returned s => s | Raised s => s end.

Definition skip : action := Returned.
Definition raise : action := Raised.

Definition and_then (a b : action) : action :=
  fun s => match a s with Returned s' => b s' | Raised s' => Raised s' end.

Declare Scope action_scope.
Delimit Scope action_scope with action.
Bind Scope action_scope with action.
Notation "a ;; b" := (and_then a b)
  (at level 100, b at level 200, right associativity) : action_scope.
Local Open Scope action_scope.

(** [for x in xs: body(x)] *)
Fixpoint for_each {A : Type} (xs : list A) (body : A -> action) : action :=
  match xs with
  | [] => skip
  | x :: xs' => body x ;; for_each xs' body
  end.

(** [try: a  except Exception as e: print(...)] *)
Definition try_ (a : action) : action := fun s => Returned (final (a s)).

(** *** The statements sent to the store *)

Definition prop (key : string) (n : node) : option json :=
  assoc key (node_props n).

(** The pattern [(x:L {name: $name})]. *)
Definition named (L : label) (name : json) (n : node) : bool :=
  bool_decide (node_label n = L) &&
  match prop "name" n with
  | Some v => value_eqb v name
  | None => false
  end.

(** An identity no node of the store has. *)
Definition fresh_id (s : store) : nat :=
  foldr (fun n m => max (S (node_id n)) m) 0 (nodes s).

(** [MATCH (n) DETACH DELETE n] *)
Definition detach_delete_all : action :=
  fun s => Returned {| nodes := []; edges := []; unique_name := unique_name s |}.

Fixpoint names_differ (L : label) (ns : list node) : bool :=
  match ns with
  | [] => true
  | n :: rest =>
      match prop "name" n with
      | Some v =>
          negb (bool_decide (node_label n = L) && existsb (named L v) rest)
      | None => true
      end && names_differ L rest
  end.

(** [CREATE CONSTRAINT c IF NOT EXISTS FOR (x:L) REQUIRE x.name IS UNIQUE]:
    nothing to do when it is there, refused when two nodes of the label
    share a name. *)
Definition create_constraint (L : label) : action :=
  fun s =>
    if bool_decide (L ∈ unique_name s) then Returned s
    else if names_differ L (nodes s)
    then Returned {| nodes := nodes s; edges := edges s;
                     unique_name := unique_name s ++ [L] |}
    else Raised s.

(** [CREATE (x:L {props})]: refused when the name of the label is declared
    unique and a node of the label already has this one. *)
Definition create_node (L : label) (props : list (string * json)) : action :=
  fun s =>
    if bool_decide (L ∈ unique_name s) &&
       match assoc "name" props with
       | Some v => existsb (named L v) (nodes s)
       | None => false
       end
    then Raised s
    else Returned {| nodes := nodes s ++ [Node (fresh_id s) L props];
                     edges := edges s; unique_name := unique_name s |}.

(** [MERGE (x:L {name: $name})]: the nodes that match, or a new one when
    none does. *)
Definition merge_node (L : label) (name : json) (s : store)
    : store * list nat :=
  match List.filter (named L name) (nodes s) with
  | [] =>
      ({| nodes := nodes s ++ [Node (fresh_id s) L [("name"%string, name)]];
          edges := edges s; unique_name := unique_name s |},
       [fresh_id s])
  | found => (s, map node_id found)
  end.

(** [MERGE (t)-[:R]->(x)] for one pair of nodes. *)
Definition merge_edge (R : rel_type) (x : nat) (s : store) (t : nat) : store :=
  if bool_decide (Edge t R x ∈ edges s) then s
  else {| nodes := nodes s; edges := edges s ++ [Edge t R x];
          unique_name := unique_name s |}.

(** [MERGE (x:L {name: $name}) WITH x
     MATCH (t:Temple {name: $temple_name}) MERGE (t)-[:R]->(x)] *)
Definition merge_related (L : label) (R : rel_type) (name temple_name : json)
    : action :=
  fun s =>
    let '(s1, xs) := merge_node L name s in
    let ts := map node_id (List.filter (named Temple temple_name) (nodes s1)) in
    Returned (foldl (fun s2 x => foldl (merge_edge R x) s2 ts) s1 xs).

End Graph.

(** ** The class [TempleGraphDB] *)

Module TempleGraphDB.

Import PyStr Json Graph.

Local Open Scope nat_scope.
Local Open Scope action_scope.

(** The extraction methods a call [self.extract_...] is resolved to. *)
Record methods : Type := Methods {
  extract_deities : string -> list string;
  extract_scriptures : string -> list string;
  extract_architectural_style : string -> list string;
  extract_festivals : string -> list string
}.

(** The methods of the class itself. *)
Definition self : methods :=
  {| extract_deities := Extractor.extract_deities;
     extract_scriptures := Extractor.extract_scriptures;
     extract_architectural_style := Extractor.extract_architectural_style;
     extract_festivals := Extractor.extract_festivals |}.

Definition clear_database : action := detach_delete_all.

Definition constraints : list label :=
  [Temple; State; Deity; Scripture; ArchitecturalStyle; Festival].

Definition create_constraints : action :=
  for_each constraints (fun constraint => try_ (create_constraint constraint)).

Definition empty_str : json := JStr "".

(** The keyword arguments of the [CREATE] of [create_temple_node]. *)
Definition temple_props (temple_data : json)
    : option (list (string * json)) :=
  name ← get temple_data "name" empty_str;
  state ← get temple_data "state" empty_str;
  info ← get temple_data "info" empty_str;
  story ← get temple_data "story" empty_str;
  visiting_guide ← get temple_data "visiting_guide" empty_str;
  architecture ← get temple_data "architecture" empty_str;
  scripture_mentions ← get temple_data "mention_in_scripture" empty_str;
  Some [ ("name", name); ("state", state); ("info", info); ("story", story);
         ("visiting_guide", visiting_guide); ("architecture", architecture);
         ("scripture_mentions", scripture_mentions) ]%string.

Definition create_temple_node (temple_data : json) : action :=
  match temple_props temple_data with
  | Some props => create_node Temple props
  | None => raise
  end.

(** [' '.join(parts)]; [None] stands for the [TypeError] of a part that is
    not a string. *)
Fixpoint strings (parts : list json) : option (list string) :=
  match parts with
  | [] => Some []
  | JStr s :: rest => cons s <$> strings rest
  | _ :: _ => None
  end.

Definition all_text (temple_data : json) : option string :=
  info ← get temple_data "info" empty_str;
  story ← get temple_data "story" empty_str;
  architecture ← get temple_data "architecture" empty_str;
  mention ← get temple_data "mention_in_scripture" empty_str;
  join " " <$> strings [info; story; architecture; mention].

Definition create_relationships (self : methods) (temple_data : json)
    : action :=
  match get temple_data "name" empty_str,
        get temple_data "state" empty_str,
        all_text temple_data with
  | Some temple_name, Some state_name, Some all_text =>
      (if truthy state_name
       then merge_related State LOCATED_IN state_name temple_name
       else skip) ;;
      for_each (extract_deities self all_text) (fun deity =>
        merge_related Deity DEDICATED_TO (JStr deity) temple_name) ;;
      for_each (extract_scriptures self all_text) (fun scripture =>
        merge_related Scripture MENTIONED_IN (JStr scripture) temple_name) ;;
      for_each (extract_architectural_style self all_text) (fun style =>
        merge_related ArchitecturalStyle HAS_STYLE (JStr style) temple_name) ;;
      for_each (extract_festivals self all_text) (fun festival =>
        merge_related Festival CELEBRATES (JStr festival) temple_name)
  | _, _, _ => raise
  end.

(** The body of the inner loop of [load_temple_data]. *)
Definition load_temple (self : methods) (temple : json) : action :=
  create_temple_node temple ;; create_relationships self temple.

(** [for state, temples in data.items(): for temple in temples: ...] *)
Definition load_states (self : methods) (data : json) : action :=
  match data with
  | JDict items =>
      for_each items (fun '(state, temples) =>
        match iterate temples with
        | Some temples => for_each temples (load_temple self)
        | None => raise
        end)
  | _ => raise
  end.

(** [load_temple_data], from the parsed document on: whatever is raised is
    caught and reported, and the store stays as it was left. *)
Definition load_temple_data (self : methods) (data : json) : action :=
  try_ (let data := replace_none data in
        clear_database ;; create_constraints ;; load_states self data).

(** The counts [print_statistics] reads back. *)
Definition count (L : label) (s : store) : nat :=
  length (List.filter (fun n => bool_decide (node_label n = L)) (nodes s)).

Record statistics : Type := Statistics {
  Temples : nat;
  States : nat;
  Deities : nat;
  Scriptures : nat;
  Architectural_Styles : nat;
  Festivals : nat;
  Total_Relationships : nat
}.

Definition print_statistics (s : store) : statistics :=
  {| Temples := count Temple s;
     States := count State s;
     Deities := count Deity s;
     Scriptures := count Scripture s;
     Architectural_Styles := count ArchitecturalStyle s;
     Festivals := count Festival s;
     Total_Relationships := length (edges s) |}.

End TempleGraphDB.

(** ** Notions the statements are written with *)

Module Notions.

Import PyStr Json Graph TempleGraphDB.

Local Open Scope nat_scope.
Local Open Scope action_scope.

(** Two strings with white space at the same places. *)
Inductive same_spaces : string -> string -> Prop :=
  | same_spaces_nil : same_spaces EmptyString EmptyString
  | same_spaces_cons c d s t :
      isspace c = isspace d -> same_spaces s t ->
      same_spaces (String c s) (String d t).

(** No white space in front. *)
Definition no_lead (s : string) : Prop :=
  match s with
  | EmptyString => True
  | String c _ => isspace c = false
  end.

(** No upper-case letter anywhere. *)
Definition no_uppercase (s : string) : bool :=
  String.eqb (lower s) s.

(** The closed vocabulary of architectural styles, in the order the
    extractor tests them. *)
Definition style_vocabulary : list string :=
  ["Dravidian"; "Kalinga"; "Chola"; "Pallava"; "Vijayanagara"]%string.

(** The example text of the specification. *)
Definition example_text : string :=
  "This temple is dedicated to Lord Venkateswara and follows Dravidian architecture, described in the Skanda Purana.".

(** The nodes of a label and the relationships of a type, in creation
    order. *)
Definition labelled (L : label) (s : store) : list node :=
  List.filter (fun n => bool_decide (node_label n = L)) (nodes s).

Definition typed (R : rel_type) (s : store) : list edge :=
  List.filter (fun e => bool_decide (edge_type e = R)) (edges s).

(** [s'] is [s] with more nodes, all satisfying [PN], and more
    relationships, all satisfying [PE]; nothing of [s] is lost or changed. *)
Definition adds (PN : node -> Prop) (PE : edge -> Prop) (s s' : store) : Prop :=
  exists ns es,
    nodes s' = nodes s ++ ns /\ edges s' = edges s ++ es /\
    unique_name s' = unique_name s /\ Forall PN ns /\ Forall PE es.

(** The [CREATE] of a Temple named [name] is refused by [s]. *)
Definition clashes (s : store) (name : json) : bool :=
  bool_decide (Temple ∈ unique_name s) && existsb (named Temple name) (nodes s).


(** The field [key] of a record as [get] reads it. *)
Definition field (key : string) (items : list (string * json)) : json :=
  default (JStr "") (assoc key items).

(** The fields the extraction text is made of. *)
Definition text_fields : list string :=
  ["info"; "story"; "architecture"; "mention_in_scripture"]%string.

(** The node [MERGE] binds first: the first match, or the one it makes. *)
Definition merged (L : label) (name : json) (s : store) : node :=
  match List.filter (named L name) (nodes s) with
  | [] => Node (fresh_id s) L [("name"%string, name)]
  | r :: _ => r
  end.

(** The Temple node [create_temple_node] asks the store to create. *)
Definition created_temple (s : store) (items : list (string * json)) : node :=
  Node (fresh_id s) Temple
       [ ("name", field "name" items); ("state", field "state" items);
         ("info", field "info" items); ("story", field "story" items);
         ("visiting_guide", field "visiting_guide" items);
         ("architecture", field "architecture" items);
         ("scripture_mentions", field "mention_in_scripture" items) ]%string.

Definition with_node (n : node) (s : store) : store :=
  {| nodes := nodes s ++ [n]; edges := edges s; unique_name := unique_name s |}.

(** An action that never raises. *)
Definition returns (a : action) : Prop :=
  forall s, a s = Returned (final (a s)).

(** Nodes of the four extracted kinds, and the relationships to them. *)
Definition entity (n : node) : Prop :=
  node_label n <> State /\ node_label n <> Temple.

Definition relation (e : edge) : Prop := edge_type e <> LOCATED_IN.

(** Two method tables that extract the same from [text]. *)
Definition agree_on (text : string) (self self' : methods) : Prop :=
  extract_deities self text = extract_deities self' text /\
  extract_scriptures self text = extract_scriptures self' text /\
  extract_architectural_style self text =
    extract_architectural_style self' text /\
  extract_festivals self text = extract_festivals self' text.

(** A node of label [L] named [name] is in the store. *)
Definition has_node (L : label) (name : string) (s : store) : Prop :=
  exists n, n ∈ nodes s /\ node_label n = L /\ prop "name" n = Some (JStr name).

(** The four extraction loops of [create_relationships]. *)
Definition extraction_loops (self : methods) (all_text : string)
    (temple_name : json) : action :=
  for_each (extract_deities self all_text) (fun deity =>
    merge_related Deity DEDICATED_TO (JStr deity) temple_name) ;;
  for_each (extract_scriptures self all_text) (fun scripture =>
    merge_related Scripture MENTIONED_IN (JStr scripture) temple_name) ;;
  for_each (extract_architectural_style self all_text) (fun style =>
    merge_related ArchitecturalStyle HAS_STYLE (JStr style) temple_name) ;;
  for_each (extract_festivals self all_text) (fun festival =>
    merge_related Festival CELEBRATES (JStr festival) temple_name).

(** The declared labels after one more constraint has been asked for on a
    store without nodes, and after the six of [create_constraints]. *)
Definition declare_one (u : list label) (L : label) : list label :=
  if bool_decide (L ∈ u) then u else u ++ [L].

Definition declare (unique : list label) : list label :=
  foldl declare_one unique constraints.

(** The documents of the specification's examples. *)
Definition odisha_document : json :=
  JDict [("Odisha",
          JList [JDict [("name", JStr "Jagannath Temple");
                        ("state", JStr "Odisha");
                        ("info", JStr "dedicated to Jagannath")]])]%string.

Definition two_regions_document : json :=
  JDict [("Tamil Nadu",
          JList [JDict [("name", JStr "Ranganathaswamy Temple");
                        ("state", JStr "Tamil Nadu");
                        ("info", JStr "A shrine of Vishnu.")]]);
         ("Kerala",
          JList [JDict [("name", JStr "Padmanabhaswamy Temple");
                        ("state", JStr "Kerala");
                        ("story", JStr "Vishnu reclines here.")]])]%string.

Definition empty_store : store := Store [] [] [].

End Notions.

(** ** The loader under either report of a refused statement *)

Module Reporting.

Import Json Graph TempleGraphDB.

Local Open Scope nat_scope.
Local Open Scope action_scope.

(** [create_temple_node] runs its [CREATE] and never reads the result.  When
    the store refuses the statement, [session.run] raises if the store
    answers at once; if the refusal comes only with the result, it is
    dropped as the session is closed and the method returns as after a
    [CREATE] that was accepted. *)
Inductive refusal : Type :=
  | AtRun
  | AtClose.

Definition refused (r : refusal) : action :=
  match r with
  | AtRun => raise
  | AtClose => skip
  end.

(** [CREATE (x:L {props})] under either way of reporting a refusal. *)
Definition create_node_as (r : refusal) (L : label)
    (props : list (string * json)) : action :=
  fun s =>
    if bool_decide (L ∈ unique_name s) &&
       match assoc "name" props with
       | Some v => existsb (named L v) (nodes s)
       | None => false
       end
    then refused r s
    else Returned {| nodes := nodes s ++ [Node (fresh_id s) L props];
                     edges := edges s; unique_name := unique_name s |}.

Definition create_temple_node_as (r : refusal) (temple_data : json) : action :=
  match temple_props temple_data with
  | Some props => create_node_as r Temple props
  | None => raise
  end.

Definition load_temple_as (r : refusal) (self : methods) (temple : json)
    : action :=
  create_temple_node_as r temple ;; create_relationships self temple.

Definition load_states_as (r : refusal) (self : methods) (data : json)
    : action :=
  match data with
  | JDict items =>
      for_each items (fun '(state, temples) =>
        match iterate temples with
        | Some temples => for_each temples (load_temple_as r self)
        | None => raise
        end)
  | _ => raise
  end.

Definition load_temple_data_as (r : refusal) (self : methods) (data : json)
    : action :=
  try_ (let data := replace_none data in
        clear_database ;; create_constraints ;; load_states_as r self data).

End Reporting.

(** ** Notions for the matcher and the extractors *)

Module MatcherNotions.

Import PyStr Re.

Local Open Scope nat_scope.

(** Two strings that differ at most by the case of their letters. *)
Inductive same_letters : string -> string -> Prop :=
  | same_letters_nil : same_letters EmptyString EmptyString
  | same_letters_cons c d s t :
      char_lower c = char_lower d -> same_letters s t ->
      same_letters (String c s) (String d t).

Definition same_group (g1 g2 : group) : Prop := option_Forall2 same_letters g1 g2.

Definition same_match (a b : string * group) : Prop :=
  same_letters a.1 b.1 /\ same_group a.2 b.2.

Section Related.

Context {A B : Type} (R : A -> B -> Prop).

(** Two continuations that answer alike on texts and groups that are
    alike. *)
Definition same_cont (k1 : @cont A) (k2 : @cont B) : Prop :=
  forall s1 s2 g1 g2,
    same_letters s1 s2 -> same_group g1 g2 ->
    option_Forall2 R (k1 s1 g1) (k2 s2 g2).

Definition same_run (m1 : string -> group -> @cont A -> option A)
    (m2 : string -> group -> @cont B -> option B) : Prop :=
  forall s1 s2 g1 g2 k1 k2,
    same_letters s1 s2 -> same_group g1 g2 -> same_cont k1 k2 ->
    option_Forall2 R (m1 s1 g1 k1) (m2 s2 g2 k2).

End Related.

(** [m] occurs in [s]; [s'] is the end of [s]. *)
Definition within (m s : string) : Prop :=
  exists pre post, s = pre +:+ m +:+ post.

Definition ends (s' s : string) : Prop := exists pre, s = pre +:+ s'.

(** The group after a match from [s]: the one before, or a piece of [s]. *)
Definition group_within (g g' : group) (s : string) : Prop :=
  g' = g \/ exists m, g' = Some m /\ within m s.

Section Reaches.

Context {A : Type}.

(** A match that succeeds has called what was left to match, on an end of
    the text and with a group taken from the text. *)
Definition reaches (m : string -> group -> @cont A -> option A) : Prop :=
  forall s g k a,
    m s g k = Some a ->
    exists s' g', k s' g' = Some a /\ ends s' s /\ group_within g g' s.

End Reaches.

(** An alternation of plain words, [w1|w2|...]. *)
Fixpoint alt_words (ws : list string) : regex :=
  match ws with
  | [] => Empty
  | [w] => word w
  | w :: ws' => Alt (word w) (alt_words ws')
  end.

(** [s] without the word [w] at its start, when it starts with [w] in any
    case. *)
Fixpoint after_word (w s : string) : option string :=
  match w, s with
  | EmptyString, _ => Some s
  | String p w', String c s' =>
      if lit_matches true p c then after_word w' s' else None
  | String _ _, EmptyString => None
  end.

(** The first word of [ws] that [s] starts with, and what follows it. *)
Fixpoint first_word (ws : list string) (s : string) : option (string * string) :=
  match ws with
  | [] => None
  | w :: ws' =>
      match after_word w s with
      | Some s' => Some (w, s')
      | None => first_word ws' s
      end
  end.

(** [a] and [w] agree as far as both go. *)
Fixpoint compatible (a w : string) : bool :=
  match a, w with
  | String x a', String y w' => Ascii.eqb x y && compatible a' w'
  | _, _ => true
  end.

(** No end of [v] agrees with [w]: an occurrence of [w] cannot start inside
    an occurrence of [v]. *)
Fixpoint apart (v w : string) : bool :=
  match v with
  | EmptyString => true
  | String _ v' => negb (compatible v w) && apart v' w
  end.

(** [w] is one of [ws], and every other word of [ws] is apart from it, all
    in lower case. *)
Definition stands_out (ws : list string) (w : string) : bool :=
  forallb (fun v => String.eqb v w || apart (lower v) (lower w)) ws &&
  existsb (String.eqb w) ws && negb (is_empty w) &&
  forallb (fun v => negb (is_empty v)) ws.

Definition named_festivals : list string :=
  ["Brahmotsavam"; "Navaratri"; "Rath Yatra"; "Tirukalyanam"]%string.

Definition named_puranas : list string :=
  ["Skanda Purana"; "Padma Purana"; "Varaha Purana"; "Bhagavata Purana"]%string.

Definition named_epics : list string :=
  ["Mahabharata"; "Ramayana"; "Bhagavad Gita"]%string.

(** The alternatives of the second scripture pattern as plain words:
    [Vedas?] is [Vedas] when an s follows and [Veda] otherwise. *)
Definition epic_words : list string :=
  named_epics ++ ["Vedas"%string; "Veda"%string].

End MatcherNotions.

(** ** Notions for the store, the loader and the queries *)

Module StoreNotions.

Import PyStr Json Graph TempleGraphDB Notions.

Local Open Scope nat_scope.
Local Open Scope action_scope.

(** The label a relationship of each type ends at. *)
Definition target (R : rel_type) : label :=
  match R with
  | LOCATED_IN => State
  | DEDICATED_TO => Deity
  | MENTIONED_IN => Scripture
  | HAS_STYLE => ArchitecturalStyle
  | CELEBRATES => Festival
  end.

Definition ids (s : store) : list nat := map node_id (nodes s).

(** A relationship that starts at a Temple node of the store and ends at a
    node of the store that has the label its type calls for. *)
Definition anchored (s : store) (e : edge) : Prop :=
  exists t x,
    t ∈ nodes s /\ x ∈ nodes s /\
    node_id t = edge_from e /\ node_label t = Temple /\
    node_id x = edge_to e /\ node_label x = target (edge_type e).

(** The label and name of a node whose name is a string. *)
Definition string_key (n : node) : option (label * string) :=
  match prop "name" n with
  | Some (JStr x) => Some (node_label n, x)
  | _ => None
  end.

Definition string_keys (s : store) : list (label * string) :=
  omap string_key (nodes s).

Definition consistent (s : store) : Prop :=
  NoDup (ids s) /\ NoDup (edges s) /\ Forall (anchored s) (edges s) /\
  NoDup (string_keys s).

(** A consistent store in which Temple names are declared unique. *)
Definition guarded (s : store) : Prop :=
  Temple ∈ unique_name s /\ consistent s.

(** An action that keeps a property of the store, also when it raises. *)
Definition keeps (I : store -> Prop) (a : action) : Prop :=
  forall s, I s -> I (final (a s)).

(** The temple records of a document, as the two loops of
    [load_temple_data] meet them. *)
Definition region_records (temples : json) : nat :=
  match iterate temples with
  | Some records => length records
  | None => 0
  end.

Definition records (data : json) : nat :=
  match data with
  | JDict items => sum_list (map (fun kv => region_records (snd kv)) items)
  | _ => 0
  end.

(** An action that adds to a count at most [w], and exactly [w] when it
    does not raise. *)
Definition counts (c : store -> nat) (w : nat) (a : action) : Prop :=
  forall s,
    c (final (a s)) <= c s + w /\
    (forall s', a s = Returned s' -> c s' = c s + w).

(** The store after one constraint has been asked for. *)
Definition constrained (s : store) (L : label) : store :=
  final (create_constraint L s).

(** The node [t] has a relationship of type [R] to a node of label [L]
    named [name]. *)
Definition linked (s : store) (t : node) (R : rel_type) (L : label)
    (name : string) : Prop :=
  exists x,
    x ∈ nodes s /\ node_label x = L /\ prop "name" x = Some (JStr name) /\
    Edge (node_id t) R (node_id x) ∈ edges s.

(** Each of the four text fields is absent or empty. *)
Definition no_text (items : list (string * json)) : Prop :=
  Forall (fun key => field key items = JStr "") text_fields.

(** The matches of [(t:Temple)-[:R]->(x:L)]. *)
Definition pattern_rows (R : rel_type) (L : label) (s : store)
    : list (node * node) :=
  flat_map (fun e =>
    flat_map (fun t =>
      flat_map (fun x =>
        if bool_decide (edge_type e = R) &&
           (node_id t =? edge_from e) && bool_decide (node_label t = Temple) &&
           (node_id x =? edge_to e) && bool_decide (node_label x = L)
        then [(t, x)] else [])
      (nodes s)) (nodes s)) (edges s).

(** [x.name CONTAINS needle]: false when the name is not a string. *)
Definition name_contains (needle : string) (x : node) : bool :=
  match prop "name" x with
  | Some (JStr name) => contains needle name
  | _ => false
  end.

(** [x.name], null when there is none. *)
Definition name_of (x : node) : json := default JNull (prop "name" x).

(** The rows of the four queries of [run_sample_queries]. *)
Definition temples_dedicated_to_vishnu (s : store) : list (json * json) :=
  map (fun r => (name_of (fst r), name_of (snd r)))
      (List.filter (fun r => name_contains "Vishnu" (snd r) ||
                             name_contains "Venkateswara" (snd r))
                   (pattern_rows DEDICATED_TO Deity s)).

Definition temples_with_dravidian_architecture (s : store) : list json :=
  map (fun r => name_of (fst r))
      (List.filter (fun r => named ArchitecturalStyle (JStr "Dravidian") (snd r))
                   (pattern_rows HAS_STYLE ArchitecturalStyle s)).

Definition temples_mentioned_in_puranas (s : store) : list (json * json) :=
  map (fun r => (name_of (fst r), name_of (snd r)))
      (List.filter (fun r => name_contains "Purana" (snd r))
                   (pattern_rows MENTIONED_IN Scripture s)).

Definition temples_in_andhra_pradesh (s : store) : list json :=
  map (fun r => name_of (fst r))
      (List.filter (fun r => named State (JStr "Andhra Pradesh") (snd r))
                   (pattern_rows LOCATED_IN State s)).

(** The properties a Temple node is created with, and the record field each
    is read from. *)
Definition temple_keys : list (string * string) :=
  [ ("name", "name"); ("state", "state"); ("info", "info");
    ("story", "story"); ("visiting_guide", "visiting_guide");
    ("architecture", "architecture");
    ("scripture_mentions", "mention_in_scripture") ]%string.

(** One [MERGE] statement of [create_relationships]: the label, the
    relationship type and the name. *)
Definition merge_step : Type := label * rel_type * string.

Definition run_step (temple_name : json) (m : merge_step) : action :=
  merge_related m.1.1 m.1.2 (JStr m.2) temple_name.

(** The statement has nothing left to do in [s]: a node of the name is
    there, and every such node is joined to every Temple of the name
    [temple_name]. *)
Definition settled (temple_name : json) (m : merge_step) (s : store) : Prop :=
  List.filter (named m.1.1 (JStr m.2)) (nodes s) <> [] /\
  forall t x, t ∈ List.filter (named Temple temple_name) (nodes s) ->
              x ∈ List.filter (named m.1.1 (JStr m.2)) (nodes s) ->
              Edge (node_id t) m.1.2 (node_id x) ∈ edges s.

(** The statements of [create_relationships] in the order they are sent. *)
Definition merge_steps (self : methods) (state : string) (text : string)
    : list merge_step :=
  (if is_empty state then [] else [(State, LOCATED_IN, state)]) ++
  map (fun x => (Deity, DEDICATED_TO, x)) (extract_deities self text) ++
  map (fun x => (Scripture, MENTIONED_IN, x)) (extract_scriptures self text) ++
  map (fun x => (ArchitecturalStyle, HAS_STYLE, x))
      (extract_architectural_style self text) ++
  map (fun x => (Festival, CELEBRATES, x)) (extract_festivals self text).

(** An action that adds at most [w] to a count, whether it raises or not. *)
Definition at_most (c : store -> nat) (w : nat) (a : action) : Prop :=
  forall s, c (final (a s)) <= c s + w.

End StoreNotions.

(** * Properties *)

(** ** Strings *)

Module PyStrFacts.

Import PyStr Notions.

Local Open Scope nat_scope.

#[local] Hint Constructors same_spaces : core.

Lemma same_spaces_refl s : same_spaces s s.
Proof. induction s; auto. Qed.

Lemma same_spaces_len s t : same_spaces s t -> len s = len t.
Proof. induction 1; simpl; unfold len in *; simpl; congruence. Qed.

Lemma isspace_char_lower c : isspace (char_lower c) = isspace c.
Proof. destruct c as [[] [] [] [] [] [] [] []]; reflexivity. Qed.

Lemma isspace_char_upper c : isspace (char_upper c) = isspace c.
Proof. destruct c as [[] [] [] [] [] [] [] []]; reflexivity. Qed.

Lemma title_from_same_spaces s : forall b, same_spaces (title_from b s) s.
Proof.
  induction s as [|c s IH]; intros b; simpl; [constructor|].
  constructor; [|apply IH].
  destruct b; [apply isspace_char_lower | apply isspace_char_upper].
Qed.

Lemma lstrip_same_spaces s t :
  same_spaces s t -> same_spaces (lstrip s) (lstrip t).
Proof.
  induction 1 as [|c d s t Hcd Hst IH]; simpl; [constructor|].
  rewrite <- Hcd. destruct (isspace c) eqn:Hc; [exact IH|].
  constructor; [congruence | exact Hst].
Qed.

Lemma rstrip_same_spaces s t :
  same_spaces s t -> same_spaces (rstrip s) (rstrip t).
Proof.
  induction 1 as [|c d s t Hcd Hst IH]; simpl; [constructor|].
  rewrite <- Hcd.
  destruct IH as [|c' d' s' t' Hcd' Hst'].
  - destruct (isspace c) eqn:Hc; repeat constructor; congruence.
  - constructor; [exact Hcd | constructor; assumption].
Qed.

Lemma strip_same_spaces s t :
  same_spaces s t -> same_spaces (strip s) (strip t).
Proof. intros H. apply rstrip_same_spaces, lstrip_same_spaces, H. Qed.

Lemma lstrip_no_lead s : no_lead (lstrip s).
Proof.
  induction s as [|c s IH]; simpl; [exact I|].
  destruct (isspace c) eqn:Hc; [exact IH | exact Hc].
Qed.

Lemma lstrip_id s : no_lead s -> lstrip s = s.
Proof. destruct s as [|c s]; simpl; [reflexivity|]. intros ->. reflexivity. Qed.

Lemma rstrip_no_lead s : no_lead s -> no_lead (rstrip s).
Proof.
  destruct s as [|c s]; simpl; [exact id|]. intros Hc.
  destruct (rstrip s); [rewrite Hc|]; exact Hc.
Qed.

Lemma rstrip_idem s : rstrip (rstrip s) = rstrip s.
Proof.
  induction s as [|c s IH]; simpl; [reflexivity|].
  destruct (rstrip s) as [|d t] eqn:Hr.
  - destruct (isspace c) eqn:Hc; simpl; [reflexivity | rewrite Hc; reflexivity].
  - change (rstrip (String c (String d t))) with
      (match rstrip (String d t) with
       | EmptyString =>
           if isspace c then EmptyString else String c EmptyString
       | u => String c u
       end).
    rewrite IH. reflexivity.
Qed.

Lemma strip_idem s : strip (strip s) = strip s.
Proof.
  unfold strip.
  rewrite (lstrip_id (rstrip (lstrip s))).
  - apply rstrip_idem.
  - apply rstrip_no_lead, lstrip_no_lead.
Qed.

(** Title-casing a stripped string leaves nothing more to strip. *)
Lemma len_strip_title_strip s : len (strip (title (strip s))) = len (strip s).
Proof.
  rewrite <- (strip_idem s) at 2.
  apply same_spaces_len, strip_same_spaces, title_from_same_spaces.
Qed.

Lemma contains_nonempty needle hay :
  needle <> EmptyString -> contains needle hay = true -> hay <> EmptyString.
Proof.
  intros Hn Hc ->. destruct needle; [congruence|]. discriminate Hc.
Qed.

Lemma lower_empty s : lower s = EmptyString -> s = EmptyString.
Proof. destruct s; [reflexivity | discriminate]. Qed.

Lemma is_empty_true s : is_empty s = true <-> len s = 0.
Proof. destruct s; simpl; split; intros; (reflexivity || discriminate). Qed.

End PyStrFacts.

(** ** The extractors *)

Module ExtractorFacts.

Import PyStr Re Extractor Notions PyStrFacts.

Local Open Scope nat_scope.

(** The patterns are those of the source, character for character. *)
Example deity_patterns_text :
  map show deity_patterns =
  [ "(?:Lord|Goddess|Sri|Shri)\s+([A-Z][a-zA-Z]+(?:\s+[A-Z][a-zA-Z]+)*)";
    "([A-Z][a-zA-Z]+(?:\s+[A-Z][a-zA-Z]+)*)\s+(?:Temple|Swamy|Amman)";
    "dedicated to\s+([A-Z][a-zA-Z]+(?:\s+[A-Z][a-zA-Z]+)*)";
    "deity[:\s]+([A-Z][a-zA-Z]+(?:\s+[A-Z][a-zA-Z]+)*)" ]%string.
Proof. reflexivity. Qed.

Example scripture_patterns_text :
  map show scripture_patterns =
  [ "([A-Z][a-zA-Z]+)\s+Purana";
    "(Mahabharata|Ramayana|Bhagavad Gita|Vedas?)";
    "(Skanda Purana|Padma Purana|Varaha Purana|Bhagavata Purana)" ]%string.
Proof. reflexivity. Qed.

Example festival_patterns_text :
  map show festival_patterns =
  [ "([A-Z][a-zA-Z]+(?:\s+[A-Z][a-zA-Z]+)*)\s+festival";
    "festival[:\s]+([A-Z][a-zA-Z]+(?:\s+[A-Z][a-zA-Z]+)*)";
    "(Brahmotsavam|Navaratri|Rath Yatra|Tirukalyanam)" ]%string.
Proof. reflexivity. Qed.

Example patterns_bracketed :
  forallb bracketed (deity_patterns ++ scripture_patterns ++ festival_patterns)
  = true.
Proof. reflexivity. Qed.

(** Membership in a list that computes. *)
Ltac by_listing := apply list_elem_of_In; vm_compute; tauto.

(** What a loop that only adds to a set keeps true of its elements. *)
Lemma foldl_add_all {B : Type} (P : string -> Prop)
    (f : gset string -> B -> gset string) (l : list B) :
  (forall acc b, (forall x, x ∈ acc -> P x) -> forall x, x ∈ f acc b -> P x) ->
  forall acc, (forall x, x ∈ acc -> P x) ->
  forall x, x ∈ foldl f acc l -> P x.
Proof.
  intros Hf. induction l as [|b l IH]; intros acc Hacc x; simpl; [apply Hacc|].
  apply IH. intros y. apply Hf, Hacc.
Qed.

(** What a loop that only adds to a set never loses. *)
Lemma foldl_add_keeps {B : Type}
    (f : gset string -> B -> gset string) (l : list B) :
  (forall acc b, acc ⊆ f acc b) ->
  forall acc, acc ⊆ foldl f acc l.
Proof.
  intros Hf. induction l as [|b l IH]; intros acc; simpl; [done|].
  etrans; [apply (Hf acc b) | apply IH].
Qed.

Lemma add_match_keeps n acc m : acc ⊆ add_match n acc m.
Proof. unfold add_match, add. case_match; set_solver. Qed.

Lemma add_matches_keeps n text acc p : acc ⊆ add_matches n text acc p.
Proof. unfold add_matches. apply foldl_add_keeps, add_match_keeps. Qed.

Lemma add_known_keeps text acc d : acc ⊆ add_known text acc d.
Proof. unfold add_known, add. case_match; set_solver. Qed.

Lemma add_match_long n acc m :
  (forall x, x ∈ acc -> n < len (strip x)) ->
  forall x, x ∈ add_match n acc m -> n < len (strip x).
Proof.
  intros Hacc x. unfold add_match, add.
  destruct (n <? len (strip m)) eqn:Hlen; [|apply Hacc].
  rewrite elem_of_union, elem_of_singleton. intros [->|Hx]; [|apply Hacc, Hx].
  rewrite len_strip_title_strip. apply Nat.ltb_lt, Hlen.
Qed.

Lemma add_matches_long n text acc p :
  (forall x, x ∈ acc -> n < len (strip x)) ->
  forall x, x ∈ add_matches n text acc p -> n < len (strip x).
Proof.
  unfold add_matches. apply foldl_add_all. intros a b. apply add_match_long.
Qed.

Lemma common_deities_long :
  Forall (fun d => 2 < len (strip d)) common_deities.
Proof. repeat constructor. Qed.

Lemma add_known_long text (l : list string) :
  Forall (fun d => 2 < len (strip d)) l ->
  forall acc, (forall x, x ∈ acc -> 2 < len (strip x)) ->
  forall x, x ∈ foldl (add_known text) acc l -> 2 < len (strip x).
Proof.
  induction 1 as [|d l Hd Hl IH]; intros acc Hacc x; simpl; [apply Hacc|].
  apply IH. intros y. unfold add_known, add. case_match; [|apply Hacc].
  rewrite elem_of_union, elem_of_singleton. intros [->|Hy]; [exact Hd|].
  apply Hacc, Hy.
Qed.

Lemma deity_set_long text x : x ∈ deity_set text -> 2 < len (strip x).
Proof.
  unfold deity_set.
  apply (add_known_long text _ common_deities_long).
  apply foldl_add_all; [|set_solver].
  intros acc p. apply add_matches_long.
Qed.

(** A gazetteer name found in the text is in the set. *)
Lemma add_known_hit text deity (l : list string) :
  deity ∈ l -> contains (lower deity) (lower text) = true ->
  forall acc, deity ∈ foldl (add_known text) acc l.
Proof.
  intros Hin Hc. induction l as [|d l IH]; intros acc; simpl.
  - by apply elem_of_nil in Hin.
  - apply elem_of_cons in Hin as [<-|Hin]; [|apply IH, Hin].
    apply (foldl_add_keeps _ _ (add_known_keeps text)).
    unfold add_known, add. rewrite Hc. set_solver.
Qed.

Lemma filter_sublist {B : Type} (f : B -> bool) (l : list B) :
  sublist (List.filter f l) l.
Proof.
  induction l as [|b l IH]; simpl; [constructor|].
  destruct (f b); [apply sublist_skip | apply sublist_cons]; exact IH.
Qed.

(** The five tests of [extract_architectural_style] are one selection from
    the vocabulary. *)
Lemma extract_architectural_style_filter text :
  extract_architectural_style text =
  if is_empty text then []
  else List.filter (fun v => contains (lower v) (lower text)) style_vocabulary.
Proof.
  unfold extract_architectural_style, style_vocabulary.
  destruct (is_empty text); [reflexivity|]. cbn [List.filter].
  change (lower "Dravidian") with "dravidian"%string.
  change (lower "Kalinga") with "kalinga"%string.
  change (lower "Chola") with "chola"%string.
  change (lower "Pallava") with "pallava"%string.
  change (lower "Vijayanagara") with "vijayanagara"%string.
  destruct (contains "dravidian" _), (contains "kalinga" _),
    (contains "chola" _), (contains "pallava" _),
    (contains "vijayanagara" _); reflexivity.
Qed.

Lemma style_vocabulary_facts :
  NoDup style_vocabulary /\
  Forall (fun v => title v = v /\ v <> EmptyString) style_vocabulary.
Proof.
  split.
  - apply (bool_decide_unpack _). vm_compute. exact I.
  - repeat constructor; discriminate.
Qed.

(** C1. On an empty text, which is also what a missing field is read as,
    each of the four extractors returns the empty list; being total
    functions they cannot fail. *)
Theorem extractors_empty_text (text : string) :
  len text = 0 ->
  extract_deities text = [] /\
  extract_scriptures text = [] /\
  extract_architectural_style text = [] /\
  extract_festivals text = [].
Proof.
  intros Hlen. apply is_empty_true in Hlen.
  unfold extract_deities, extract_scriptures, extract_architectural_style,
    extract_festivals.
  rewrite Hlen. repeat split.
Qed.

Lemma extractors_empty_text_witness :
  len "" = 0 /\
  (extract_deities "" = [] /\
   extract_scriptures "" = [] /\
   extract_architectural_style "" = [] /\
   extract_festivals "" = []).
Proof. split; [reflexivity | apply (extractors_empty_text ""); reflexivity]. Defined.

(** C2. Whatever the text, [extract_architectural_style] returns a selection
    from the five-name vocabulary in the vocabulary's own order: exactly the
    names whose lower-case form occurs in the lower-cased text, none twice,
    each in its title-cased spelling.  A text that names Chola before
    Dravidian still yields Dravidian first. *)
Theorem architectural_style_from_vocabulary (text : string) :
  sublist (extract_architectural_style text) style_vocabulary /\
  NoDup (extract_architectural_style text) /\
  (forall x, x ∈ extract_architectural_style text <->
             x ∈ style_vocabulary /\ contains (lower x) (lower text) = true) /\
  Forall (fun x => title x = x) (extract_architectural_style text) /\
  extract_architectural_style "chola, then DRAVIDIAN" = ["Dravidian"; "Chola"]%string.
Proof.
  destruct style_vocabulary_facts as [Hnodup Hall].
  assert (Hsub : sublist (extract_architectural_style text) style_vocabulary).
  { rewrite extract_architectural_style_filter.
    destruct (is_empty text); [apply sublist_nil_l | apply filter_sublist]. }
  split; [exact Hsub|]. split; [eapply sublist_NoDup; eassumption|].
  split; [|split; [|reflexivity]].
  - intros x. rewrite extract_architectural_style_filter.
    destruct (is_empty text) eqn:He.
    + split; [intros H; by apply elem_of_nil in H|]. intros [Hx Hc].
      exfalso. rewrite Forall_forall in Hall. destruct (Hall x Hx) as [_ Hne].
      destruct text; [|discriminate He]. destruct x; [congruence|discriminate].
    + rewrite list_elem_of_In, filter_In, <- list_elem_of_In. tauto.
  - apply Forall_forall. intros x Hx.
    rewrite Forall_forall in Hall.
    apply (Hall x), (elem_of_sublist _ _ _ Hx Hsub).
Qed.

(** C3. On the example text of the specification the deities include
    Venkateswara, the styles are exactly Dravidian, and the scriptures
    include Skanda Purana. *)
Theorem example_text_extraction :
  "Venkateswara"%string ∈ extract_deities example_text /\
  extract_architectural_style example_text = ["Dravidian"%string] /\
  "Skanda Purana"%string ∈ extract_scriptures example_text.
Proof.
  split; [|split].
  - by_listing.
  - vm_compute. reflexivity.
  - by_listing.
Qed.

(** C6. Every name [extract_deities] returns is longer than two characters
    once stripped. *)
Theorem extract_deities_longer_than_two (text : string) :
  Forall (fun name => 2 < len (strip name)) (extract_deities text).
Proof.
  unfold extract_deities. destruct (is_empty text); [constructor|].
  apply Forall_forall. intros x Hx. apply elem_of_elements in Hx.
  exact (deity_set_long text x Hx).
Qed.

(** C9. The text "dedicated to shiva kumar" has no upper-case letter, yet
    [extract_deities] returns a non-empty list for it: under [IGNORECASE]
    the third pattern captures "shiva kumar", which it does not without the
    flag, and the capture is returned title-cased. *)
Theorem lowercase_text_yields_deity :
  exists text : string,
    text = "dedicated to shiva kumar"%string /\
    no_uppercase text = true /\
    extract_deities text <> [] /\
    (exists pattern, deity_patterns !! 2%nat = Some pattern /\
       findall pattern text IGNORECASE = ["shiva kumar"%string] /\
       findall pattern text false = []) /\
    "Shiva Kumar"%string ∈ extract_deities text.
Proof.
  eexists. split; [reflexivity|]. split; [reflexivity|].
  split; [vm_compute; discriminate|]. split.
  - eexists. split; [reflexivity|]. split; vm_compute; reflexivity.
  - by_listing.
Qed.

(** C10. A gazetteer name whose lower-case form occurs anywhere in the
    lower-cased text, inside a longer word or not, is returned by
    [extract_deities]. *)
Theorem gazetteer_name_found (text deity : string) :
  deity ∈ common_deities ->
  contains (lower deity) (lower text) = true ->
  deity ∈ extract_deities text.
Proof.
  intros Hin Hc. unfold extract_deities.
  assert (Hne : text <> EmptyString).
  { intros ->. pose proof common_deities_long as Hlong.
    rewrite Forall_forall in Hlong. specialize (Hlong deity Hin).
    destruct deity; [cbn in Hlong; lia | discriminate Hc]. }
  destruct text; [congruence|]. cbn [is_empty].
  apply elem_of_elements. unfold deity_set.
  apply add_known_hit; assumption.
Qed.

Lemma gazetteer_name_found_witness :
  "Rama"%string ∈ common_deities /\
  contains (lower "Rama") (lower "Ramayana") = true /\
  "Rama"%string ∈ extract_deities "Ramayana".
Proof.
  assert (Hin : "Rama"%string ∈ common_deities).
  { by_listing. }
  split; [exact Hin|]. split; [reflexivity|].
  apply (gazetteer_name_found "Ramayana" "Rama" Hin). reflexivity.
Defined.

End ExtractorFacts.

(** ** The null normalisation *)

Module JsonFacts.

Import Json.

Lemma replace_none_is_normalised doc : normalised doc (replace_none doc).
Proof.
  induction doc as [| | | | |elems IH|items IH] using json_deep_ind;
    simpl; try constructor.
  - induction IH as [|x l Hx _ IHl]; simpl; constructor; assumption.
  - induction IH as [|kv l Hkv _ IHl]; simpl; constructor; auto.
Qed.

Lemma normalised_is_replace_none doc :
  forall doc', normalised doc doc' -> doc' = replace_none doc.
Proof.
  induction doc as [| | | | |elems IH|items IH] using json_deep_ind;
    intros doc' Hn; inversion Hn as [| | | | |? elems' H2|? items' H2];
    subst; simpl; try reflexivity; f_equal.
  - clear Hn. revert IH.
    induction H2 as [|x y l l' Hxy _ IHl]; intros IH; simpl; [reflexivity|].
    apply Forall_cons in IH as [Hx Hl]. f_equal; [apply Hx, Hxy | apply IHl, Hl].
  - clear Hn. revert IH.
    induction H2 as [|[k v] [k' v'] l l' [Hk Hv] _ IHl]; intros IH; simpl;
      [reflexivity|].
    apply Forall_cons in IH as [Hx Hl]. simpl in *. subst k'.
    f_equal; [f_equal; apply Hx, Hv | apply IHl, Hl].
Qed.

Lemma replace_none_no_null doc : has_null (replace_none doc) = false.
Proof.
  induction doc as [| | | | |elems IH|items IH] using json_deep_ind;
    simpl; try reflexivity.
  - induction IH as [|x l Hx _ IHl]; simpl; [reflexivity|].
    rewrite Hx. exact IHl.
  - induction IH as [|kv l Hkv _ IHl]; simpl; [reflexivity|].
    rewrite Hkv. exact IHl.
Qed.

Lemma assoc_replace_none k items :
  assoc k (map (fun kv => (fst kv, replace_none (snd kv))) items) =
  replace_none <$> assoc k items.
Proof.
  induction items as [|[k' v] rest IH]; simpl; [reflexivity|].
  destruct (String.eqb k k'); [reflexivity | exact IH].
Qed.

Lemma child_replace_none s doc :
  child s (replace_none doc) = replace_none <$> child s doc.
Proof.
  destruct s as [k|i], doc; simpl; try reflexivity.
  - apply assoc_replace_none.
  - apply nth_error_map.
Qed.

Lemma at_path_replace_none path :
  forall doc, at_path path (replace_none doc) = replace_none <$> at_path path doc.
Proof.
  induction path as [|s path IH]; intros doc; simpl; [reflexivity|].
  rewrite child_replace_none.
  destruct (child s doc) as [doc'|]; simpl; [apply IH | reflexivity].
Qed.

(** C4. [replace_none] is the normalisation the specification describes and
    nothing else: a document [doc'] is [doc] with every null replaced by the
    empty string, at whatever depth in dicts and lists, and with every other
    value, key, length and order kept, exactly when it is
    [replace_none doc].  No null is left, and every position of the
    document holds afterwards the normalisation of what it held before. *)
Theorem replace_none_normalises (doc : json) :
  (forall doc', normalised doc doc' <-> doc' = replace_none doc) /\
  has_null (replace_none doc) = false /\
  (forall path,
     at_path path (replace_none doc) = replace_none <$> at_path path doc) /\
  (forall b, replace_none (JBool b) = JBool b) /\
  (forall z, replace_none (JInt z) = JInt z) /\
  (forall f, replace_none (JFloat f) = JFloat f) /\
  (forall s, replace_none (JStr s) = JStr s) /\
  replace_none JNull = JStr "".
Proof.
  split; [|split; [|split]].
  - intros doc'. split; [apply normalised_is_replace_none|].
    intros ->. apply replace_none_is_normalised.
  - apply replace_none_no_null.
  - intros path. apply at_path_replace_none.
  - repeat split.
Qed.

End JsonFacts.

(** ** The store *)

Module GraphFacts.

Import PyStr Json Graph TempleGraphDB Notions.

Local Open Scope nat_scope.
Local Open Scope action_scope.

Lemma adds_refl PN PE s : adds PN PE s s.
Proof.
  exists [], []. rewrite !app_nil_r. repeat split; constructor.
Qed.

Lemma adds_trans PN PE s1 s2 s3 :
  adds PN PE s1 s2 -> adds PN PE s2 s3 -> adds PN PE s1 s3.
Proof.
  intros (ns & es & Hn & He & Hu & Hns & Hes)
         (ns' & es' & Hn' & He' & Hu' & Hns' & Hes').
  exists (ns ++ ns'), (es ++ es').
  rewrite Hn', He', Hu', Hn, He, Hu, !app_assoc.
  repeat split; apply Forall_app; split; assumption.
Qed.

Lemma adds_weaken (PN PN' : node -> Prop) (PE PE' : edge -> Prop) s s' :
  (forall n, PN n -> PN' n) -> (forall e, PE e -> PE' e) ->
  adds PN PE s s' -> adds PN' PE' s s'.
Proof.
  intros HN HE (ns & es & Hn & He & Hu & Hns & Hes).
  exists ns, es. repeat split; try assumption.
  - eapply Forall_impl; [exact Hns | exact HN].
  - eapply Forall_impl; [exact Hes | exact HE].
Qed.

Lemma adds_node_in PN PE s s' n : adds PN PE s s' -> n ∈ nodes s -> n ∈ nodes s'.
Proof.
  intros (ns & es & Hn & _) Hin. rewrite Hn. apply elem_of_app. by left.
Qed.

Lemma adds_edge_in PN PE s s' e : adds PN PE s s' -> e ∈ edges s -> e ∈ edges s'.
Proof.
  intros (ns & es & _ & He & _) Hin. rewrite He. apply elem_of_app. by left.
Qed.

Lemma filter_none {B : Type} (f : B -> bool) (l : list B) :
  Forall (fun b => f b = false) l -> List.filter f l = [].
Proof.
  induction 1 as [|b l Hb _ IH]; simpl; [reflexivity|]. rewrite Hb. exact IH.
Qed.

(** Adding nodes of other labels leaves the nodes of a label as they are,
    and likewise for relationships. *)
Lemma adds_labelled L PN PE s s' :
  (forall n, PN n -> node_label n <> L) ->
  adds PN PE s s' -> labelled L s' = labelled L s.
Proof.
  intros HL (ns & es & Hn & _ & _ & Hns & _). unfold labelled.
  rewrite Hn, List.filter_app, (filter_none _ ns), app_nil_r; [reflexivity|].
  eapply Forall_impl; [exact Hns|]. intros n Hp.
  apply bool_decide_eq_false_2, HL, Hp.
Qed.

Lemma adds_typed R PN PE s s' :
  (forall e, PE e -> edge_type e <> R) ->
  adds PN PE s s' -> typed R s' = typed R s.
Proof.
  intros HR (ns & es & _ & He & _ & _ & Hes). unfold typed.
  rewrite He, List.filter_app, (filter_none _ es), app_nil_r; [reflexivity|].
  eapply Forall_impl; [exact Hes|]. intros e Hp.
  apply bool_decide_eq_false_2, HR, Hp.
Qed.

(** *** Sequencing *)

Lemma and_then_adds PN PE (a b : action) s :
  adds PN PE s (final (a s)) ->
  (forall s1, adds PN PE s1 (final (b s1))) ->
  adds PN PE s (final ((a ;; b) s)).
Proof.
  intros Ha Hb. unfold and_then. destruct (a s) as [s1|s1]; simpl in *.
  - eapply adds_trans; [exact Ha | apply Hb].
  - exact Ha.
Qed.

Lemma for_each_adds {B : Type} PN PE (xs : list B) (body : B -> action) :
  (forall x s, adds PN PE s (final (body x s))) ->
  forall s, adds PN PE s (final (for_each xs body s)).
Proof.
  intros Hbody. induction xs as [|x xs IH]; intros s; simpl.
  - apply adds_refl.
  - apply and_then_adds; [apply Hbody | exact IH].
Qed.

(** *** The statements *)

Lemma merge_node_adds L name s :
  adds (fun n => node_label n = L) (fun _ => False) s (merge_node L name s).1.
Proof.
  unfold merge_node. destruct (List.filter _ _); simpl.
  - eexists [_], []. simpl. rewrite app_nil_r.
    repeat split; repeat constructor.
  - apply adds_refl.
Qed.

Lemma merge_edge_adds R x s t :
  adds (fun _ => False) (fun e => edge_type e = R) s (merge_edge R x s t).
Proof.
  unfold merge_edge. case_bool_decide; [apply adds_refl|].
  eexists [], [_]. simpl. rewrite app_nil_r.
  repeat split; repeat constructor.
Qed.

Lemma merge_edges_adds R x ts :
  forall s, adds (fun _ => False) (fun e => edge_type e = R) s
                 (foldl (merge_edge R x) s ts).
Proof.
  induction ts as [|t ts IH]; intros s; simpl; [apply adds_refl|].
  eapply adds_trans; [apply merge_edge_adds | apply IH].
Qed.

Lemma merge_all_edges_adds R ts xs :
  forall s, adds (fun _ => False) (fun e => edge_type e = R) s
                 (foldl (fun s2 x => foldl (merge_edge R x) s2 ts) s xs).
Proof.
  induction xs as [|x xs IH]; intros s; simpl; [apply adds_refl|].
  eapply adds_trans; [apply merge_edges_adds | apply IH].
Qed.

Lemma merge_related_returns L R name temple_name s :
  exists s', merge_related L R name temple_name s = Returned s'.
Proof. unfold merge_related. destruct (merge_node L name s). eauto. Qed.

Lemma merge_related_adds L R name temple_name s :
  adds (fun n => node_label n = L) (fun e => edge_type e = R) s
       (final (merge_related L R name temple_name s)).
Proof.
  unfold merge_related.
  pose proof (merge_node_adds L name s) as Hnode.
  destruct (merge_node L name s) as [s1 xs]; simpl in *.
  eapply adds_trans.
  - eapply adds_weaken; [| |exact Hnode]; [auto | intros e []].
  - eapply adds_weaken; [| |apply merge_all_edges_adds]; [intros n [] | auto].
Qed.

Lemma create_node_adds L props s :
  adds (fun n => node_label n = L) (fun _ => False) s
       (final (create_node L props s)).
Proof.
  unfold create_node. destruct (_ && _); simpl; [apply adds_refl|].
  eexists [_], []. simpl. rewrite app_nil_r.
  repeat split; repeat constructor.
Qed.

(** *** After a [MERGE] the node and the relationship are there *)

Lemma merge_edge_in R x s t : Edge t R x ∈ edges (merge_edge R x s t).
Proof.
  unfold merge_edge. case_bool_decide as Hin; [exact Hin|]. simpl.
  apply elem_of_app. right. apply list_elem_of_singleton. reflexivity.
Qed.

Lemma merge_edges_in R x ts t :
  t ∈ ts -> forall s, Edge t R x ∈ edges (foldl (merge_edge R x) s ts).
Proof.
  induction ts as [|t' ts IH]; intros Hin s; simpl.
  - by apply elem_of_nil in Hin.
  - apply elem_of_cons in Hin as [->|Hin]; [|apply IH, Hin].
    eapply adds_edge_in; [apply merge_edges_adds | apply merge_edge_in].
Qed.

Lemma merge_all_edges_in R ts xs t x :
  t ∈ ts -> x ∈ xs ->
  forall s, Edge t R x ∈
            edges (foldl (fun s2 x => foldl (merge_edge R x) s2 ts) s xs).
Proof.
  intros Ht. induction xs as [|x' xs IH]; intros Hin s; simpl.
  - by apply elem_of_nil in Hin.
  - apply elem_of_cons in Hin as [->|Hin]; [|apply IH, Hin].
    eapply adds_edge_in; [apply merge_all_edges_adds | apply merge_edges_in, Ht].
Qed.

Lemma filter_elem_of {B : Type} (f : B -> bool) (l : list B) b :
  b ∈ List.filter f l <-> b ∈ l /\ f b = true.
Proof. rewrite !list_elem_of_In. apply filter_In. Qed.

Lemma filter_nil_existsb {B : Type} (f : B -> bool) (l : list B) :
  List.filter f l = [] <-> existsb f l = false.
Proof.
  induction l as [|b l IH]; simpl; [tauto|].
  destruct (f b); simpl; [split; discriminate | exact IH].
Qed.

Lemma merge_node_merged L name s :
  value_eqb name name = true ->
  merged L name s ∈ nodes (merge_node L name s).1 /\
  named L name (merged L name s) = true /\
  node_id (merged L name s) ∈ (merge_node L name s).2.
Proof.
  intros Hrefl. unfold merged, merge_node.
  destruct (List.filter (named L name) (nodes s)) as [|r found] eqn:Hf; simpl.
  - split; [|split].
    + apply elem_of_app. right. apply list_elem_of_singleton. reflexivity.
    + unfold named, prop. simpl. rewrite Hrefl, bool_decide_eq_true_2; done.
    + apply list_elem_of_singleton. reflexivity.
  - assert (Hr : r ∈ List.filter (named L name) (nodes s)).
    { rewrite Hf. apply elem_of_cons. by left. }
    apply filter_elem_of in Hr as [Hin Hnamed].
    split; [exact Hin|]. split; [exact Hnamed|].
    apply elem_of_cons. by left.
Qed.

Lemma merge_node_labelled L name s :
  labelled L (merge_node L name s).1 =
  labelled L s ++
  (if existsb (named L name) (nodes s) then [] else [merged L name s]).
Proof.
  unfold merged, merge_node, labelled.
  destruct (List.filter (named L name) (nodes s)) as [|r found] eqn:Hf; simpl.
  - apply filter_nil_existsb in Hf. rewrite Hf, List.filter_app. simpl.
    rewrite bool_decide_eq_true_2; done.
  - destruct (existsb (named L name) (nodes s)) eqn:He.
    + rewrite app_nil_r. reflexivity.
    + apply filter_nil_existsb in He. congruence.
Qed.

(** [merge_related] leaves the merged node in the store, joined to every
    Temple of the given name that is there. *)
Lemma merge_related_links L R name temple_name s t :
  value_eqb name name = true ->
  t ∈ nodes s -> named Temple temple_name t = true ->
  let s' := final (merge_related L R name temple_name s) in
  merged L name s ∈ nodes s' /\
  named L name (merged L name s) = true /\
  Edge (node_id t) R (node_id (merged L name s)) ∈ edges s' /\
  labelled L s' =
  labelled L s ++
  (if existsb (named L name) (nodes s) then [] else [merged L name s]).
Proof.
  intros Hrefl Ht Hnamed. unfold merge_related.
  destruct (merge_node_merged L name s Hrefl) as (Hin & Hr & Hid).
  pose proof (merge_node_adds L name s) as Hadds.
  pose proof (merge_node_labelled L name s) as Hlab.
  destruct (merge_node L name s) as [s1 xs]; cbn [fst snd final] in *.
  set (ts := map node_id (List.filter (named Temple temple_name) (nodes s1))).
  pose proof (merge_all_edges_adds R ts xs s1) as Hedges.
  split; [eapply adds_node_in; eassumption|].
  split; [exact Hr|]. split.
  - apply merge_all_edges_in; [|exact Hid].
    apply list_elem_of_fmap. exists t. split; [reflexivity|].
    apply filter_elem_of. split; [|exact Hnamed].
    eapply adds_node_in; eassumption.
  - rewrite <- Hlab. eapply adds_labelled; [|exact Hedges]. intros n [].
Qed.

Lemma named_string L name n :
  named L (JStr name) n = true <->
  node_label n = L /\ prop "name" n = Some (JStr name).
Proof.
  unfold named. rewrite andb_true_iff, bool_decide_eq_true.
  destruct (prop "name" n) as [v|]; [|split; [intros [_ ?]|intros [_ ?]]; discriminate].
  destruct v; simpl;
    try (split; [intros [_ ?]|intros [_ ?]]; discriminate).
  rewrite String.eqb_eq. split; intros [Hl Hn]; (split; [exact Hl|congruence]).
Qed.

(** *** Actions that do not raise *)

Lemma returns_skip : returns skip.
Proof. intros s. reflexivity. Qed.

Lemma returns_merge_related L R name temple_name :
  returns (merge_related L R name temple_name).
Proof.
  intros s. unfold merge_related. destruct (merge_node L name s). reflexivity.
Qed.

Lemma returns_and_then (a b : action) :
  returns a -> returns b -> returns (a ;; b).
Proof.
  intros Ha Hb s. unfold and_then. rewrite (Ha s). apply Hb.
Qed.

Lemma returns_for_each {B : Type} (xs : list B) (body : B -> action) :
  (forall x, returns (body x)) -> returns (for_each xs body).
Proof.
  intros Hbody. induction xs as [|x xs IH]; simpl.
  - apply returns_skip.
  - apply returns_and_then; [apply Hbody | exact IH].
Qed.

Lemma and_then_returned (a b : action) s s1 :
  a s = Returned s1 -> (a ;; b) s = b s1.
Proof. intros Ha. unfold and_then. rewrite Ha. reflexivity. Qed.

(** Every name a loop merges has its node afterwards. *)
Lemma for_each_merge_has_node L R temple_name (names : list string) name :
  name ∈ names ->
  forall s,
    has_node L name
      (final (for_each names (fun x => merge_related L R (JStr x) temple_name) s)).
Proof.
  induction names as [|x names IH]; intros Hin s; simpl.
  - by apply elem_of_nil in Hin.
  - rewrite (and_then_returned _ _ s _ (returns_merge_related L R _ _ s)).
    apply elem_of_cons in Hin as [->|Hin]; [|apply IH, Hin].
    set (s1 := final (merge_related L R (JStr x) temple_name s)).
    assert (H1 : has_node L x s1).
    { destruct (merge_node_merged L (JStr x) s) as (Hin & Hnamed & _);
        [apply String.eqb_refl|].
      exists (merged L (JStr x) s). split; [|apply named_string, Hnamed].
      unfold s1, merge_related.
      pose proof (merge_node_adds L (JStr x) s) as Hadds.
      destruct (merge_node L (JStr x) s) as [s2 xs]; cbn [fst snd final] in *.
      eapply adds_node_in; [apply merge_all_edges_adds | exact Hin]. }
    destruct H1 as (n & Hn & Hlab & Hname). exists n. split; [|tauto].
    eapply adds_node_in; [|exact Hn].
    apply for_each_adds. intros y s2. apply merge_related_adds.
Qed.

End GraphFacts.

(** ** The loader *)

Module LoaderFacts.

Import PyStr Json Graph TempleGraphDB Notions Reporting GraphFacts.
Import ExtractorFacts.

Local Open Scope nat_scope.
Local Open Scope action_scope.

Lemma get_field items key : get (JDict items) key empty_str = Some (field key items).
Proof. reflexivity. Qed.

Lemma fresh_id_above s n : n ∈ nodes s -> node_id n < fresh_id s.
Proof.
  unfold fresh_id. induction (nodes s) as [|m l IH]; intros Hin; simpl.
  - by apply elem_of_nil in Hin.
  - apply elem_of_cons in Hin as [->|Hin]; [lia|].
    specialize (IH Hin). lia.
Qed.


(** [create_temple_node] on a record: refused on a clash of names, and
    otherwise the store with the new node. *)
Lemma create_temple_node_dict items s :
  create_temple_node (JDict items) s =
  if clashes s (field "name" items) then Raised s
  else Returned (with_node (created_temple s items) s).
Proof. reflexivity. Qed.

Lemma create_temple_node_adds temple s :
  adds (fun n => node_label n = Temple) (fun _ => False) s
       (final (create_temple_node temple s)).
Proof.
  unfold create_temple_node. destruct (temple_props temple).
  - apply create_node_adds.
  - apply adds_refl.
Qed.

Lemma merge_loop_adds L R temple_name (names : list string) s :
  L <> State -> L <> Temple -> R <> LOCATED_IN ->
  adds entity relation s
    (final (for_each names (fun x => merge_related L R (JStr x) temple_name) s)).
Proof.
  intros HS HT HR. apply for_each_adds. intros x s1.
  eapply adds_weaken; [| |apply merge_related_adds].
  - intros n Hn. unfold entity. rewrite Hn. split; assumption.
  - intros e He. unfold relation. rewrite He. assumption.
Qed.

Lemma merge_loop_grows L R temple_name (names : list string) s :
  adds (fun _ => True) (fun _ => True) s
    (final (for_each names (fun x => merge_related L R (JStr x) temple_name) s)).
Proof.
  apply for_each_adds. intros x s1.
  eapply adds_weaken; [| |apply merge_related_adds]; auto.
Qed.

Lemma extraction_loops_adds self all_text temple_name s :
  adds entity relation s (final (extraction_loops self all_text temple_name s)).
Proof.
  unfold extraction_loops.
  repeat (apply and_then_adds; [|intros ?]); apply merge_loop_adds; discriminate.
Qed.


(** [create_relationships] on a record whose text fields are strings. *)
Lemma create_relationships_dict self items text :
  all_text (JDict items) = Some text ->
  create_relationships self (JDict items) =
  ((if truthy (field "state" items)
    then merge_related State LOCATED_IN (field "state" items)
                       (field "name" items)
    else skip) ;;
   extraction_loops self text (field "name" items)).
Proof.
  intros Htext. unfold create_relationships.
  rewrite !get_field, Htext. reflexivity.
Qed.

Lemma create_relationships_raises self temple s :
  all_text temple = None -> create_relationships self temple s = Raised s.
Proof.
  intros Htext. unfold create_relationships. rewrite Htext.
  destruct (get temple "name" empty_str), (get temple "state" empty_str);
    reflexivity.
Qed.

Lemma all_text_not_dict temple :
  (forall items, temple <> JDict items) -> all_text temple = None.
Proof. destruct temple; intros H; try reflexivity. by destruct (H items). Qed.

(** Whatever the record, [create_relationships] only adds to the store, and
    nothing of label Temple. *)
Lemma create_relationships_adds self temple s :
  adds (fun n => node_label n <> Temple)
       (fun e => edge_type e = LOCATED_IN -> exists items st,
                   temple = JDict items /\ field "state" items = st /\
                   truthy st = true)
       s (final (create_relationships self temple s)).
Proof.
  destruct (all_text temple) as [text|] eqn:Htext;
    [|rewrite create_relationships_raises by exact Htext; apply adds_refl].
  destruct temple as [| | | | | |items]; try discriminate Htext.
  rewrite (create_relationships_dict self items text Htext).
  apply and_then_adds.
  - destruct (truthy (field "state" items)) eqn:Ht; [|apply adds_refl].
    eapply adds_weaken; [| |apply merge_related_adds].
    + intros n ->. discriminate.
    + intros e _ _. eauto.
  - intros s1. eapply adds_weaken; [| |apply extraction_loops_adds].
    + intros n [_ H]. exact H.
    + intros e He Heq. destruct (He Heq).
Qed.





(** *** The two ways a refusal is reported *)

Lemma load_temple_as_at_run self temple :
  load_temple_as AtRun self temple = load_temple self temple.
Proof. reflexivity. Qed.

Lemma load_temple_data_as_at_run self data :
  load_temple_data_as AtRun self data = load_temple_data self data.
Proof. reflexivity. Qed.





Lemma create_temple_node_as_adds r temple s :
  adds (fun n => node_label n = Temple) (fun _ => False) s
       (final (create_temple_node_as r temple s)).
Proof.
  destruct r; [apply create_temple_node_adds|].
  unfold create_temple_node_as. destruct (temple_props temple) as [props|];
    [|apply adds_refl].
  pose proof (create_node_adds Temple props s) as H.
  unfold create_node in H. unfold create_node_as.
  destruct (_ && _); [apply adds_refl | exact H].
Qed.





Lemma assoc_dict_set_other key value items k :
  k <> key -> assoc k (dict_set key value items) = assoc k items.
Proof.
  intros Hne. induction items as [|[k' v] rest IH]; simpl.
  - destruct (String.eqb_spec k key); [congruence | reflexivity].
  - destruct (String.eqb_spec key k') as [->|Hk]; simpl.
    + destruct (String.eqb_spec k k'); [congruence | reflexivity].
    + destruct (String.eqb k k'); [reflexivity | exact IH].
Qed.

Lemma field_dict_set_other key value items k :
  k <> key -> field k (dict_set key value items) = field k items.
Proof. intros Hne. unfold field. rewrite assoc_dict_set_other; done. Qed.

Lemma all_text_fields items :
  all_text (JDict items) =
  join " " <$> strings [field "info" items; field "story" items;
                        field "architecture" items;
                        field "mention_in_scripture" items].
Proof. reflexivity. Qed.

(** C7. For a record whose four text fields are strings or missing, the
    text handed to the extractors is info, story, architecture and scripture
    mention joined by single spaces, a missing field counting as the empty
    string.  [create_relationships] consults the four extraction methods at
    this text only: two method tables that agree on it lead to the same
    store.  Setting any other field of the record (the visiting guide, the
    name, the state) leaves the text as it is, and every name each method
    extracts from the text has its node in the store afterwards. *)
Theorem extraction_text (self : methods) (s : store)
    (items : list (string * json)) (text : string) :
  all_text (JDict items) = Some text ->
  (exists info story architecture mention,
     field "info" items = JStr info /\
     field "story" items = JStr story /\
     field "architecture" items = JStr architecture /\
     field "mention_in_scripture" items = JStr mention /\
     text = info +:+ " " +:+ story +:+ " " +:+ architecture +:+ " " +:+ mention) /\
  (forall self', agree_on text self self' ->
     create_relationships self' (JDict items) s =
     create_relationships self (JDict items) s) /\
  (forall key value, key ∉ text_fields ->
     all_text (JDict (dict_set key value items)) = Some text) /\
  (let s' := final (create_relationships self (JDict items) s) in
   (forall name, name ∈ extract_deities self text -> has_node Deity name s') /\
   (forall name, name ∈ extract_scriptures self text ->
                 has_node Scripture name s') /\
   (forall name, name ∈ extract_architectural_style self text ->
                 has_node ArchitecturalStyle name s') /\
   (forall name, name ∈ extract_festivals self text ->
                 has_node Festival name s')).
Proof.
  intros Htext. split; [|split; [|split]].
  - rewrite all_text_fields in Htext.
    destruct (field "info" items) as [| | | |info| |]; try discriminate Htext.
    destruct (field "story" items) as [| | | |story| |]; try discriminate Htext.
    destruct (field "architecture" items) as [| | | |architecture| |];
      try discriminate Htext.
    destruct (field "mention_in_scripture" items) as [| | | |mention| |];
      try discriminate Htext.
    exists info, story, architecture, mention.
    repeat split; try reflexivity. simpl in Htext. congruence.
  - intros self' (Hd & Hs & Ha & Hf).
    rewrite !(create_relationships_dict _ items text Htext).
    unfold extraction_loops. rewrite Hd, Hs, Ha, Hf. reflexivity.
  - intros key value Hkey. rewrite <- Htext, !all_text_fields.
    rewrite !field_dict_set_other; [reflexivity|..];
      intros <-; apply Hkey; unfold text_fields; set_solver.
  - rewrite (create_relationships_dict self items text Htext).
    set (name := field "name" items).
    set (region := if truthy (field "state" items)
                   then merge_related State LOCATED_IN (field "state" items) name
                   else skip).
    assert (Hregion : returns region).
    { unfold region. destruct (truthy _);
        [apply returns_merge_related | apply returns_skip]. }
    cbv zeta. rewrite (and_then_returned _ _ _ _ (Hregion s)).
    set (s1 := final (region s)). unfold extraction_loops.
    pose proof returns_merge_related as Hm.
    pose proof (fun L R names => returns_for_each names
                  (fun x : string => merge_related L R (JStr x) name)
                  (fun x => Hm L R (JStr x) name)) as Hfor.
    split; [|split; [|split]]; intros x Hx.
    + destruct (for_each_merge_has_node Deity DEDICATED_TO name _ x Hx s1)
        as (n & Hn & Hl). exists n. split; [|exact Hl].
      rewrite (and_then_returned _ _ _ _ (Hfor _ _ _ s1)).
      eapply (adds_node_in (fun _ => True) (fun _ => True)); [|exact Hn].
      repeat (apply and_then_adds; [|intros ?]); apply merge_loop_grows.
    + rewrite (and_then_returned _ _ _ _ (Hfor _ _ _ s1)).
      set (s2 := final (for_each (extract_deities self text) _ s1)).
      destruct (for_each_merge_has_node Scripture MENTIONED_IN name _ x Hx s2)
        as (n & Hn & Hl). exists n. split; [|exact Hl].
      rewrite (and_then_returned _ _ _ _ (Hfor _ _ _ s2)).
      eapply (adds_node_in (fun _ => True) (fun _ => True)); [|exact Hn].
      repeat (apply and_then_adds; [|intros ?]); apply merge_loop_grows.
    + rewrite (and_then_returned _ _ _ _ (Hfor _ _ _ s1)).
      set (s2 := final (for_each (extract_deities self text) _ s1)).
      rewrite (and_then_returned _ _ _ _ (Hfor _ _ _ s2)).
      set (s3 := final (for_each (extract_scriptures self text) _ s2)).
      destruct (for_each_merge_has_node ArchitecturalStyle HAS_STYLE name
                  _ x Hx s3) as (n & Hn & Hl).
      exists n. split; [|exact Hl].
      rewrite (and_then_returned _ _ _ _ (Hfor _ _ _ s3)).
      eapply adds_node_in; [apply merge_loop_grows | exact Hn].
    + rewrite (and_then_returned _ _ _ _ (Hfor _ _ _ s1)).
      set (s2 := final (for_each (extract_deities self text) _ s1)).
      rewrite (and_then_returned _ _ _ _ (Hfor _ _ _ s2)).
      set (s3 := final (for_each (extract_scriptures self text) _ s2)).
      rewrite (and_then_returned _ _ _ _ (Hfor _ _ _ s3)).
      apply for_each_merge_has_node, Hx.
Qed.

Lemma extraction_text_witness :
  let items := [("name", JStr "Kapaleeshwarar Temple");
                ("info", JStr "dedicated to Lord Shiva");
                ("visiting_guide", JStr "Open daily")]%string in
  let text := "dedicated to Lord Shiva   "%string in
  all_text (JDict items) = Some text /\
  has_node Deity "Shiva"
    (final (create_relationships self (JDict items) (Store [] [] []))) /\
  all_text (JDict (dict_set "visiting_guide" (JStr "Rama festival") items))
    = Some text.
Proof.
  intros items text.
  destruct (extraction_text self (Store [] [] []) items text eq_refl)
    as (_ & _ & Hother & Hdeity & _).
  split; [reflexivity|]. split.
  - apply Hdeity. by_listing.
  - apply Hother. unfold text_fields. intros Hin.
    apply list_elem_of_In in Hin. vm_compute in Hin.
    repeat destruct Hin as [Hin|Hin]; try discriminate Hin. exact Hin.
Defined.

(** *** Two runs of the loader *)

Lemma declare_foldl u : declare u = foldl declare_one u constraints.
Proof. reflexivity. Qed.

Lemma create_constraints_any (ls : list label) :
  forall u,
    for_each ls (fun c => try_ (create_constraint c)) (Store [] [] u) =
    Returned (Store [] [] (foldl declare_one u ls)).
Proof.
  induction ls as [|L ls IH]; intros u; simpl; [reflexivity|].
  unfold and_then at 1. unfold try_ at 1. unfold create_constraint.
  cbn [unique_name nodes edges names_differ]. unfold declare_one at 2.
  destruct (bool_decide (L ∈ u)); cbn [final]; apply IH.
Qed.

Lemma create_constraints_cleared u :
  create_constraints (Store [] [] u) = Returned (Store [] [] (declare u)).
Proof. apply create_constraints_any. Qed.

Lemma declare_one_keeps u L L' : L' ∈ u -> L' ∈ declare_one u L.
Proof.
  intros Hin. unfold declare_one. case_bool_decide; [exact Hin|].
  apply elem_of_app. by left.
Qed.

Lemma foldl_declare_keeps ls : forall u L, L ∈ u -> L ∈ foldl declare_one u ls.
Proof.
  induction ls as [|L' ls IH]; intros u L Hin; simpl; [exact Hin|].
  apply IH, declare_one_keeps, Hin.
Qed.

Lemma foldl_declare_has ls : forall u L, L ∈ ls -> L ∈ foldl declare_one u ls.
Proof.
  induction ls as [|L' ls IH]; intros u L Hin; simpl.
  - by apply elem_of_nil in Hin.
  - apply elem_of_cons in Hin as [->|Hin]; [|apply IH, Hin].
    apply foldl_declare_keeps. unfold declare_one.
    case_bool_decide as HL; [exact HL|].
    apply elem_of_app. right. apply list_elem_of_singleton. reflexivity.
Qed.

Lemma foldl_declare_done ls :
  forall u, (forall L, L ∈ ls -> L ∈ u) -> foldl declare_one u ls = u.
Proof.
  induction ls as [|L ls IH]; intros u Hall; simpl; [reflexivity|].
  unfold declare_one at 2. rewrite bool_decide_eq_true_2.
  - apply IH. intros L' HL'. apply Hall, elem_of_cons. by right.
  - apply Hall, elem_of_cons. by left.
Qed.

Lemma declare_idem u : declare (declare u) = declare u.
Proof.
  rewrite (declare_foldl (declare u)). apply foldl_declare_done.
  intros L HL. rewrite declare_foldl. apply foldl_declare_has, HL.
Qed.

Lemma load_temple_adds self temple s :
  adds (fun _ => True) (fun _ => True) s (final (load_temple self temple s)).
Proof.
  unfold load_temple. apply and_then_adds.
  - eapply adds_weaken; [| |apply create_temple_node_adds]; auto.
  - intros s1. eapply adds_weaken; [| |apply create_relationships_adds]; auto.
Qed.

Lemma load_states_adds self data s :
  adds (fun _ => True) (fun _ => True) s (final (load_states self data s)).
Proof.
  unfold load_states. destruct data; try apply adds_refl.
  apply for_each_adds. intros [state temples] s1.
  destruct (iterate temples); [|apply adds_refl].
  apply for_each_adds. intros temple s2. apply load_temple_adds.
Qed.

(** A run forgets the nodes and relationships it starts from. *)
Lemma load_temple_data_cleared self data s :
  load_temple_data self data s =
  Returned (final (load_states self (replace_none data)
                               (Store [] [] (declare (unique_name s))))).
Proof.
  unfold load_temple_data, try_. f_equal.
  unfold clear_database, detach_delete_all, and_then.
  rewrite create_constraints_cleared. reflexivity.
Qed.

Lemma load_temple_data_unique self data s :
  unique_name (final (load_temple_data self data s)) = declare (unique_name s).
Proof.
  rewrite load_temple_data_cleared. cbn [final].
  destruct (load_states_adds self (replace_none data)
              (Store [] [] (declare (unique_name s))))
    as (ns & es & _ & _ & Hu & _).
  exact Hu.
Qed.

(** C8. Running [load_temple_data] a second time on the same document
    leaves the store exactly as the first run left it, so the number of
    nodes, the number of relationships and every count of
    [print_statistics] are the same: a run starts by clearing the store, and
    what it builds depends on the store it starts from only through the
    declared constraints, which the first run has already declared. *)
Theorem load_twice (self : methods) (data : json) (s : store) :
  let once := final (load_temple_data self data s) in
  let twice := final (load_temple_data self data once) in
  twice = once /\
  length (nodes twice) = length (nodes once) /\
  length (edges twice) = length (edges once) /\
  print_statistics twice = print_statistics once /\
  once = final (load_states self (replace_none data)
                  (Store [] [] (declare (unique_name s)))).
Proof.
  intros once twice.
  assert (Heq : twice = once).
  { unfold twice. rewrite load_temple_data_cleared. cbn [final].
    unfold once at 1. rewrite load_temple_data_unique, declare_idem.
    unfold once. rewrite load_temple_data_cleared. reflexivity. }
  rewrite Heq. repeat split; try reflexivity.
  unfold once. rewrite load_temple_data_cleared. reflexivity.
Qed.

(** The examples of the specification, run. *)
Example odisha_document_loaded :
  let s := final (load_temple_data self odisha_document empty_store) in
  print_statistics s =
    {| Temples := 1; States := 1; Deities := 1; Scriptures := 0;
       Architectural_Styles := 0; Festivals := 0; Total_Relationships := 2 |} /\
  has_node State "Odisha" s /\ has_node Deity "Jagannath" s /\
  map edge_type (edges s) = [LOCATED_IN; DEDICATED_TO].
Proof.
  intros s. split; [vm_compute; reflexivity|].
  split; [|split; [|vm_compute; reflexivity]].
  - exists (Node 1 State [("name"%string, JStr "Odisha")]).
    split; [by_listing | split; reflexivity].
  - exists (Node 2 Deity [("name"%string, JStr "Jagannath")]).
    split; [by_listing | split; reflexivity].
Qed.

Example two_regions_share_deity :
  let s := final (load_temple_data self two_regions_document empty_store) in
  print_statistics s =
    {| Temples := 2; States := 2; Deities := 1; Scriptures := 0;
       Architectural_Styles := 0; Festivals := 0; Total_Relationships := 4 |} /\
  length (typed DEDICATED_TO s) = 2.
Proof. vm_compute. split; reflexivity. Qed.

(** A second record of the same name is refused under the constraint, and
    the run stops there. *)
Example same_name_refused :
  let temple := JDict [("name", JStr "Shore Temple")]%string in
  let s := final (load_temple_data self (JDict [("Tamil Nadu"%string,
                                                JList [temple; temple])])
                                   empty_store) in
  count Temple s = 1 /\ create_temple_node temple s = Raised s.
Proof. vm_compute. split; reflexivity. Qed.

End LoaderFacts.

(** ** The matcher, and more on the extractors *)

Module MatcherFacts.

Import PyStr Re Extractor Notions MatcherNotions PyStrFacts ExtractorFacts.

Local Open Scope nat_scope.

#[local] Hint Constructors same_letters : core.

Lemma same_letters_lower s t : same_letters s t <-> lower s = lower t.
Proof.
  split.
  - induction 1; simpl; congruence.
  - revert t. induction s as [|c s IH]; intros [|d t] H; simpl in H;
      try discriminate; [constructor|].
    injection H as Hc Hs. constructor; auto.
Qed.

Lemma same_letters_refl s : same_letters s s.
Proof. apply same_letters_lower. reflexivity. Qed.

Lemma same_letters_len s t : same_letters s t -> len s = len t.
Proof. induction 1; unfold len in *; simpl; congruence. Qed.

(** *** Characters *)

Lemma isspace_lower_eq c d : char_lower c = char_lower d -> isspace c = isspace d.
Proof.
  intros H. rewrite <- (isspace_char_lower c), <- (isspace_char_lower d), H.
  reflexivity.
Qed.

Lemma iscased_char_lower c : iscased (char_lower c) = iscased c.
Proof. destruct c as [[] [] [] [] [] [] [] []]; reflexivity. Qed.

Lemma char_upper_lower c : char_upper (char_lower c) = char_upper c.
Proof. destruct c as [[] [] [] [] [] [] [] []]; reflexivity. Qed.

Lemma char_lower_idem c : char_lower (char_lower c) = char_lower c.
Proof. destruct c as [[] [] [] [] [] [] [] []]; reflexivity. Qed.

Lemma char_lower_upper c : char_lower (char_upper c) = char_lower c.
Proof. destruct c as [[] [] [] [] [] [] [] []]; reflexivity. Qed.

Lemma char_upper_idem c : char_upper (char_upper c) = char_upper c.
Proof. destruct c as [[] [] [] [] [] [] [] []]; reflexivity. Qed.

Lemma iscased_char_upper c : iscased (char_upper c) = iscased c.
Proof. destruct c as [[] [] [] [] [] [] [] []]; reflexivity. Qed.

(** A character is its lower-case form or the upper-case form of it. *)
Lemma char_cases c : c = char_lower c \/ c = char_upper (char_lower c).
Proof. destruct c as [[] [] [] [] [] [] [] []]; (left; reflexivity) || (right; reflexivity). Qed.

Lemma three_forms (f : ascii -> bool) c :
  f c || (f (char_lower c) || f (char_upper c)) =
  f (char_lower c) || f (char_upper (char_lower c)).
Proof.
  rewrite char_upper_lower.
  destruct (char_cases c) as [H|H].
  - rewrite <- H. destruct (f c), (f (char_upper c)); reflexivity.
  - rewrite char_upper_lower in H. rewrite <- H.
    destruct (f c), (f (char_lower c)); reflexivity.
Qed.

Lemma set_matches_lower_eq items c d :
  char_lower c = char_lower d ->
  set_matches true items c = set_matches true items d.
Proof.
  intros H. unfold set_matches. simpl.
  rewrite (three_forms (fun x => existsb (item_has x) items) c).
  rewrite (three_forms (fun x => existsb (item_has x) items) d).
  rewrite H. reflexivity.
Qed.

Lemma lit_matches_lower_eq p c d :
  char_lower c = char_lower d -> lit_matches true p c = lit_matches true p d.
Proof. intros H. unfold lit_matches. rewrite H. reflexivity. Qed.

(** *** The matcher *)

Lemma same_letters_substring n : forall s t,
  same_letters s t ->
  same_letters (String.substring 0 n s) (String.substring 0 n t).
Proof.
  induction n as [|n IH]; intros s t H.
  - destruct H; simpl; constructor.
  - destruct H; simpl; constructor; auto.
Qed.

Section Related.

Context {A B : Type} (R : A -> B -> Prop).

Lemma one_char_same (p : ascii -> bool) :
  (forall c d, char_lower c = char_lower d -> p c = p d) ->
  same_run R (one_char p) (one_char p).
Proof.
  intros Hp s1 s2 g1 g2 k1 k2 Hs Hg Hk.
  destruct Hs as [|c d s t Hcd Hst]; simpl; [constructor|].
  rewrite (Hp c d Hcd). destruct (p d); [apply Hk; assumption | constructor].
Qed.

Lemma repeat_same body1 body2 :
  same_run R body1 body2 ->
  forall rounds, same_run R (repeat body1 rounds) (repeat body2 rounds).
Proof.
  intros Hbody. induction rounds as [|rounds IH];
    intros s1 s2 g1 g2 k1 k2 Hs Hg Hk; simpl; [apply Hk; assumption|].
  assert (Hinner : option_Forall2 R
            (body1 s1 g1 (fun s' g' => if len s' <? len s1
                                       then repeat body1 rounds s' g' k1
                                       else None))
            (body2 s2 g2 (fun s' g' => if len s' <? len s2
                                       then repeat body2 rounds s' g' k2
                                       else None))).
  { apply Hbody; [assumption..|].
    intros t1 t2 h1 h2 Ht Hh.
    rewrite (same_letters_len _ _ Ht), (same_letters_len _ _ Hs).
    destruct (len t2 <? len s2); [apply IH; assumption | constructor]. }
  destruct Hinner; [constructor; assumption | apply Hk; assumption].
Qed.

Lemma run_same r : same_run R (run true r) (run true r).
Proof.
  induction r as [|p| |items|r1 IH1 r2 IH2|r1 IH1 r2 IH2|r1 IH1|r1 IH1|r1 IH1
                  |r1 IH1|r1 IH1]; simpl.
  - intros s1 s2 g1 g2 k1 k2 Hs Hg Hk. apply Hk; assumption.
  - apply one_char_same. intros c d. apply lit_matches_lower_eq.
  - apply one_char_same. intros c d. apply isspace_lower_eq.
  - apply one_char_same. intros c d. apply set_matches_lower_eq.
  - intros s1 s2 g1 g2 k1 k2 Hs Hg Hk. apply IH1; [assumption..|].
    intros t1 t2 h1 h2 Ht Hh. apply IH2; assumption.
  - intros s1 s2 g1 g2 k1 k2 Hs Hg Hk.
    destruct (IH1 s1 s2 g1 g2 k1 k2 Hs Hg Hk);
      [constructor; assumption | apply IH2; assumption].
  - intros s1 s2 g1 g2 k1 k2 Hs Hg Hk.
    rewrite (same_letters_len _ _ Hs). apply repeat_same; assumption.
  - intros s1 s2 g1 g2 k1 k2 Hs Hg Hk. apply IH1; [assumption..|].
    intros t1 t2 h1 h2 Ht Hh.
    rewrite (same_letters_len _ _ Ht). apply repeat_same; assumption.
  - intros s1 s2 g1 g2 k1 k2 Hs Hg Hk.
    destruct (IH1 s1 s2 g1 g2 k1 k2 Hs Hg Hk);
      [constructor; assumption | apply Hk; assumption].
  - exact IH1.
  - intros s1 s2 g1 g2 k1 k2 Hs Hg Hk. apply IH1; [assumption..|].
    intros t1 t2 h1 h2 Ht Hh. apply Hk; [assumption|].
    constructor.
    rewrite (same_letters_len _ _ Ht), (same_letters_len _ _ Hs).
    apply same_letters_substring, Hs.
Qed.

End Related.

Lemma match_here_same r s1 s2 :
  same_letters s1 s2 ->
  option_Forall2 same_match (match_here true r s1) (match_here true r s2).
Proof.
  intros Hs. unfold match_here. apply run_same; [assumption|constructor|].
  intros t1 t2 h1 h2 Ht Hh. constructor. split; assumption.
Qed.

Lemma findall_from_same r positions : forall s1 s2,
  same_letters s1 s2 ->
  Forall2 same_letters (findall_from positions true r s1)
                       (findall_from positions true r s2).
Proof.
  induction positions as [|n IH]; intros s1 s2 Hs; simpl; [constructor|].
  destruct (match_here_same r s1 s2 Hs) as [[t1 h1] [t2 h2] [Ht Hh]|].
  - simpl in Ht, Hh. constructor.
    + destruct Hh; simpl; [assumption | constructor].
    + rewrite (same_letters_len _ _ Ht), (same_letters_len _ _ Hs).
      destruct (len t2 <? len s2); [apply IH, Ht|].
      destruct Hs; [constructor | apply IH; assumption].
  - destruct Hs; [constructor | apply IH; assumption].
Qed.

Lemma findall_same r s1 s2 :
  same_letters s1 s2 ->
  Forall2 same_letters (findall r s1 IGNORECASE) (findall r s2 IGNORECASE).
Proof.
  intros Hs. unfold findall. rewrite (same_letters_len _ _ Hs).
  apply findall_from_same, Hs.
Qed.

(** *** [strip] and [title] *)

Lemma same_letters_spaces s t : same_letters s t -> same_spaces s t.
Proof.
  induction 1; constructor; [apply isspace_lower_eq|]; assumption.
Qed.

Lemma lstrip_same_letters s t :
  same_letters s t -> same_letters (lstrip s) (lstrip t).
Proof.
  induction 1 as [|c d s t Hcd Hst IH]; simpl; [constructor|].
  rewrite (isspace_lower_eq c d Hcd).
  destruct (isspace d); [exact IH | constructor; assumption].
Qed.

Lemma rstrip_same_letters s t :
  same_letters s t -> same_letters (rstrip s) (rstrip t).
Proof.
  induction 1 as [|c d s t Hcd Hst IH]; simpl; [constructor|].
  rewrite (isspace_lower_eq c d Hcd).
  destruct IH as [|c' d' s' t' Hcd' Hst'].
  - destruct (isspace d); repeat constructor; assumption.
  - constructor; [assumption | constructor; assumption].
Qed.

Lemma strip_same_letters s t :
  same_letters s t -> same_letters (strip s) (strip t).
Proof. intros H. apply rstrip_same_letters, lstrip_same_letters, H. Qed.

Lemma title_from_same_letters s t :
  same_letters s t -> forall b, title_from b s = title_from b t.
Proof.
  induction 1 as [|c d s t Hcd Hst IH]; intros b; simpl; [reflexivity|].
  rewrite <- (iscased_char_lower c), <- (iscased_char_lower d), Hcd, IH.
  f_equal. destruct b; [reflexivity|].
  rewrite <- (char_upper_lower c), <- (char_upper_lower d), Hcd. reflexivity.
Qed.

Lemma title_strip_same_letters s t :
  same_letters s t -> title (strip s) = title (strip t).
Proof. intros H. apply title_from_same_letters, strip_same_letters, H. Qed.

(** *** The extractors *)

Lemma add_match_same n acc m1 m2 :
  same_letters m1 m2 -> add_match n acc m1 = add_match n acc m2.
Proof.
  intros H. unfold add_match.
  rewrite (same_letters_len _ _ (strip_same_letters _ _ H)).
  rewrite (title_strip_same_letters _ _ H). reflexivity.
Qed.

Lemma foldl_same {S : Type} (f : S -> string -> S) (l1 l2 : list string) :
  (forall acc m1 m2, same_letters m1 m2 -> f acc m1 = f acc m2) ->
  Forall2 same_letters l1 l2 -> forall acc, foldl f acc l1 = foldl f acc l2.
Proof.
  intros Hf. induction 1 as [|m1 m2 l1 l2 Hm _ IH]; intros acc; simpl;
    [reflexivity|].
  rewrite (Hf acc m1 m2 Hm). apply IH.
Qed.

Lemma add_matches_same n s1 s2 acc p :
  same_letters s1 s2 -> add_matches n s1 acc p = add_matches n s2 acc p.
Proof.
  intros Hs. unfold add_matches.
  apply foldl_same; [intros; apply add_match_same; assumption|].
  apply findall_same, Hs.
Qed.

Lemma foldl_ext {S T : Type} (f g : S -> T -> S) (l : list T) :
  (forall acc x, f acc x = g acc x) -> forall acc, foldl f acc l = foldl g acc l.
Proof.
  intros H. induction l as [|x l IH]; intros acc; simpl; [reflexivity|].
  rewrite H. apply IH.
Qed.

Lemma is_empty_same s1 s2 : same_letters s1 s2 -> is_empty s1 = is_empty s2.
Proof. destruct 1; reflexivity. Qed.

(** X1. On texts of code points U+0000..U+00FF the extractors ignore the
    case of the text: two such texts with the same lower-case form yield the
    same deities, the same scriptures, the same styles and the same
    festivals.  Texts with a character beyond U+00FF are outside the
    statement: under [IGNORECASE] the letters of a pattern also match U+0130,
    U+0131, U+017F and U+212A, and for them it does not hold. *)
Theorem extraction_ignores_case (text1 text2 : string) :
  lower text1 = lower text2 ->
  extract_deities text1 = extract_deities text2 /\
  extract_scriptures text1 = extract_scriptures text2 /\
  extract_architectural_style text1 = extract_architectural_style text2 /\
  extract_festivals text1 = extract_festivals text2.
Proof.
  intros Hlower. pose proof (proj2 (same_letters_lower _ _) Hlower) as Hs.
  unfold extract_deities, extract_scriptures, extract_architectural_style,
    extract_festivals.
  rewrite (is_empty_same _ _ Hs), Hlower.
  destruct (is_empty text2); [repeat split|].
  split; [|split; [|split; [reflexivity|]]]; f_equal.
  - unfold deity_set.
    rewrite (foldl_ext (add_matches 2 text1) (add_matches 2 text2));
      [|intros; apply add_matches_same, Hs].
    apply foldl_ext. intros acc d. unfold add_known. rewrite Hlower. reflexivity.
  - unfold scripture_set. apply foldl_ext. intros acc p.
    apply foldl_same; [|apply findall_same, Hs].
    intros a m1 m2 Hm. unfold add_scripture.
    rewrite (title_strip_same_letters _ _ Hm). reflexivity.
  - unfold festival_set. apply foldl_ext. intros; apply add_matches_same, Hs.
Qed.

Lemma extraction_ignores_case_witness :
  lower "LORD shiva Temple, Rath YATRA" = lower "lord SHIVA temple, rath yatra" /\
  extract_deities "LORD shiva Temple, Rath YATRA" =
  extract_deities "lord SHIVA temple, rath yatra".
Proof.
  split; [reflexivity|].
  exact (proj1 (extraction_ignores_case _ _ eq_refl)).
Defined.


Lemma append_cons x (a b : string) : String x a +:+ b = String x (a +:+ b).
Proof. reflexivity. Qed.

Lemma append_nil_l (b : string) : EmptyString +:+ b = b.
Proof. reflexivity. Qed.

Lemma append_assoc' (a b c : string) : (a +:+ b) +:+ c = a +:+ b +:+ c.
Proof.
  induction a as [|x a IH]; [reflexivity|].
  rewrite !append_cons, IH. reflexivity.
Qed.

Lemma len_append (a b : string) : len (a +:+ b) = len a + len b.
Proof.
  unfold len. induction a as [|x a IH]; [reflexivity|].
  rewrite append_cons. simpl. rewrite IH. reflexivity.
Qed.

Lemma substring_prefix pre s : String.substring 0 (len pre) (pre +:+ s) = pre.
Proof.
  induction pre as [|c pre IH].
  - rewrite append_nil_l. destruct s; reflexivity.
  - rewrite append_cons. unfold len in *. simpl. rewrite IH. reflexivity.
Qed.

Lemma ends_refl s : ends s s.
Proof. exists EmptyString. reflexivity. Qed.

Lemma ends_trans a b c : ends a b -> ends b c -> ends a c.
Proof.
  intros [p ->] [q ->]. exists (q +:+ p). symmetry. apply append_assoc'.
Qed.

Lemma ends_tail c s : ends s (String c s).
Proof. exists (String c EmptyString). reflexivity. Qed.

Lemma within_ends m a b : within m a -> ends a b -> within m b.
Proof.
  intros (pre & post & ->) [q ->]. exists (q +:+ pre), post.
  symmetry. apply append_assoc'.
Qed.

Lemma within_trans m a b : within m a -> within a b -> within m b.
Proof.
  intros (p & q & ->) (p' & q' & ->). exists (p' +:+ p), (q +:+ q').
  rewrite !append_assoc'. reflexivity.
Qed.

Lemma within_empty s : within EmptyString s.
Proof. exists EmptyString, s. reflexivity. Qed.

Lemma group_within_trans g g1 g2 s1 s :
  group_within g g1 s -> group_within g1 g2 s1 -> ends s1 s ->
  group_within g g2 s.
Proof.
  intros H1 [->|(m & -> & Hm)] He; [exact H1|].
  right. exists m. split; [reflexivity|]. eapply within_ends; eassumption.
Qed.

Section Reaches.

Context {A : Type}.

Lemma one_char_reaches p : reaches (A:=A) (one_char p).
Proof.
  intros [|c s] g k a H; simpl in H; [discriminate|].
  destruct (p c); [|discriminate].
  exists s, g. split; [exact H|]. split; [apply ends_tail | left; reflexivity].
Qed.

Lemma reaches_here s g (k : @cont A) a :
  k s g = Some a ->
  exists s' g', k s' g' = Some a /\ ends s' s /\ group_within g g' s.
Proof.
  intros H. exists s, g. split; [exact H|].
  split; [apply ends_refl | left; reflexivity].
Qed.

Lemma reaches_seq (m : string -> group -> @cont A -> option A) s g k1 k a :
  reaches (A:=A) m -> m s g k1 = Some a ->
  (forall s1 g1, k1 s1 g1 = Some a ->
     exists s' g', k s' g' = Some a /\ ends s' s1 /\ group_within g1 g' s1) ->
  exists s' g', k s' g' = Some a /\ ends s' s /\ group_within g g' s.
Proof.
  intros Hm H Hk. destruct (Hm s g k1 a H) as (s1 & g1 & H1 & He1 & Hg1).
  destruct (Hk s1 g1 H1) as (s2 & g2 & H2 & He2 & Hg2).
  exists s2, g2. split; [exact H2|]. split; [eapply ends_trans; eassumption|].
  eapply group_within_trans; eassumption.
Qed.

Lemma repeat_reaches body : reaches (A:=A) body -> forall rounds, reaches (A:=A) (repeat body rounds).
Proof.
  intros Hbody. induction rounds as [|rounds IH]; intros s g k a H; simpl in H.
  - apply reaches_here, H.
  - match type of H with
    | context [body s g ?k'] => destruct (body s g k') as [a'|] eqn:Hb
    end; [|apply reaches_here, H].
    injection H as H. subst a'.
    eapply reaches_seq; [exact Hbody | exact Hb|].
    intros s1 g1 H1. cbv beta in H1.
    destruct (len s1 <? len s); [|discriminate H1].
    apply (IH s1 g1 k a H1).
Qed.

Lemma run_reaches ignorecase r : reaches (A:=A) (run ignorecase r).
Proof.
  induction r as [|p| |items|r1 IH1 r2 IH2|r1 IH1 r2 IH2|r1 IH1|r1 IH1|r1 IH1
                  |r1 IH1|r1 IH1]; simpl.
  - intros s g k a H. apply reaches_here, H.
  - apply one_char_reaches.
  - apply one_char_reaches.
  - apply one_char_reaches.
  - intros s g k a H. eapply reaches_seq; [exact IH1 | exact H|].
    intros s1 g1 H1. apply (IH2 s1 g1 k a H1).
  - intros s g k a H. destruct (run ignorecase r1 s g k) as [a'|] eqn:H1.
    + rewrite H in H1. apply (IH1 s g k a H1).
    + apply (IH2 s g k a H).
  - intros s g k a H. apply (repeat_reaches _ IH1 _ s g k a H).
  - intros s g k a H. eapply reaches_seq; [exact IH1 | exact H|].
    intros s1 g1 H1. apply (repeat_reaches _ IH1 _ s1 g1 k a H1).
  - intros s g k a H. destruct (run ignorecase r1 s g k) as [a'|] eqn:H1.
    + rewrite H in H1. apply (IH1 s g k a H1).
    + apply reaches_here, H.
  - exact IH1.
  - intros s g k a H.
    destruct (IH1 s g _ a H) as (s1 & g1 & H1 & He1 & _).
    eexists s1, _. split; [exact H1|]. split; [exact He1|].
    right. eexists. split; [reflexivity|].
    destruct He1 as [pre ->]. rewrite len_append.
    replace (len pre + len s1 - len s1) with (len pre) by lia.
    rewrite substring_prefix. exists EmptyString, s1. reflexivity.
Qed.

End Reaches.

Lemma match_here_within ignorecase r s s' g :
  match_here ignorecase r s = Some (s', g) ->
  ends s' s /\ within (default EmptyString g) s.
Proof.
  intros H. destruct (run_reaches ignorecase r s None _ _ H)
    as (s1 & g1 & H1 & He & Hg).
  injection H1 as -> ->. split; [exact He|].
  destruct Hg as [->|(m & -> & Hm)]; [apply within_empty | exact Hm].
Qed.

Lemma findall_from_within ignorecase r positions : forall s,
  Forall (fun m => within m s) (findall_from positions ignorecase r s).
Proof.
  induction positions as [|n IH]; intros s; simpl; [constructor|].
  assert (Htail : Forall (fun m => within m s)
            match s with
            | EmptyString => []
            | String _ t => findall_from n ignorecase r t
            end).
  { destruct s as [|c t]; [constructor|].
    eapply Forall_impl; [apply IH|]. intros m Hm.
    eapply within_ends; [exact Hm | apply ends_tail]. }
  destruct (match_here ignorecase r s) as [[s' g]|] eqn:Hm; [|exact Htail].
  destruct (match_here_within _ _ _ _ _ Hm) as [He Hg].
  constructor; [exact Hg|].
  destruct (len s' <? len s); [|exact Htail].
  eapply Forall_impl; [apply IH|]. intros m Hin.
  eapply within_ends; [exact Hin | exact He].
Qed.

Lemma findall_within r text flags :
  Forall (fun m => within m text) (findall r text flags).
Proof. apply findall_from_within. Qed.

(** *** From pieces of the text to [in] *)

Lemma startswith_append m post : startswith m (m +:+ post) = true.
Proof.
  induction m as [|c m IH]; [reflexivity|].
  rewrite append_cons. simpl. rewrite Ascii.eqb_refl. exact IH.
Qed.

Lemma contains_tail m c s : contains m s = true -> contains m (String c s) = true.
Proof. intros H. simpl. rewrite H. apply orb_true_r. Qed.

Lemma within_contains m s : within m s -> contains m s = true.
Proof.
  intros (pre & post & ->). induction pre as [|c pre IH].
  - rewrite append_nil_l.
    destruct (m +:+ post) eqn:E; simpl; rewrite <- E, startswith_append;
      reflexivity.
  - rewrite append_cons. apply contains_tail, IH.
Qed.

Lemma lower_append a b : lower (a +:+ b) = lower a +:+ lower b.
Proof.
  induction a as [|c a IH]; [reflexivity|].
  rewrite append_cons. simpl. rewrite IH. reflexivity.
Qed.

Lemma within_lower m s : within m s -> within (lower m) (lower s).
Proof.
  intros (pre & post & ->). exists (lower pre), (lower post).
  rewrite !lower_append. reflexivity.
Qed.

Lemma lstrip_ends s : ends (lstrip s) s.
Proof.
  induction s as [|c s IH]; simpl; [apply ends_refl|].
  destruct (isspace c); [|apply ends_refl].
  eapply ends_trans; [exact IH | apply ends_tail].
Qed.

Lemma rstrip_starts s : exists post, s = rstrip s +:+ post.
Proof.
  induction s as [|c s [post IH]]; simpl; [exists EmptyString; reflexivity|].
  destruct (rstrip s) as [|d t].
  - destruct (isspace c).
    + exists (String c s). reflexivity.
    + exists post. rewrite append_cons, append_nil_l.
      rewrite append_nil_l in IH. congruence.
  - exists post. rewrite append_cons. congruence.
Qed.

Lemma strip_within s : within (strip s) s.
Proof.
  unfold strip. destruct (rstrip_starts (lstrip s)) as [post Hpost].
  eapply within_ends; [|apply lstrip_ends].
  exists EmptyString, post. exact Hpost.
Qed.

Lemma lower_title_from s : forall b, lower (title_from b s) = lower s.
Proof.
  induction s as [|c s IH]; intros b; simpl; [reflexivity|].
  rewrite IH. f_equal.
  destruct b; [apply char_lower_idem | apply char_lower_upper].
Qed.

(** What is added for a match occurs in the text, case aside. *)
Lemma added_name_occurs m text :
  within m text -> contains (lower (title (strip m))) (lower text) = true.
Proof.
  intros Hm. unfold title. rewrite lower_title_from.
  apply within_contains, within_lower.
  eapply within_trans; [apply strip_within | exact Hm].
Qed.

Lemma foldl_matches_occur (f : gset string -> string -> gset string)
    (P : string -> Prop) (Q : string -> Prop) (l : list string) :
  (forall acc m, Q m -> (forall x, x ∈ acc -> P x) ->
                 forall x, x ∈ f acc m -> P x) ->
  Forall Q l ->
  forall acc, (forall x, x ∈ acc -> P x) ->
  forall x, x ∈ foldl f acc l -> P x.
Proof.
  intros Hf. induction 1 as [|m l Hm _ IH]; intros acc Hacc x; simpl;
    [apply Hacc|].
  apply IH. intros y. apply Hf; assumption.
Qed.

Lemma add_matches_occur n text acc p :
  (forall x, x ∈ acc -> contains (lower x) (lower text) = true) ->
  forall x, x ∈ add_matches n text acc p ->
            contains (lower x) (lower text) = true.
Proof.
  unfold add_matches.
  apply (foldl_matches_occur _ _ (fun m => within m text));
    [|apply findall_within].
  intros a m Hm Ha x. unfold add_match, add. case_match; [|apply Ha].
  rewrite elem_of_union, elem_of_singleton. intros [->|Hx]; [|apply Ha, Hx].
  apply added_name_occurs, Hm.
Qed.

(** X2. On texts of code points U+0000..U+00FF nothing is extracted that the
    text does not hold: every name any of the four extractors returns occurs,
    lower-cased, in the lower-cased text.  Texts with a character beyond
    U+00FF are outside the statement: a captured U+017F is title-cased to S,
    which the lower-cased text does not have. *)
Theorem extracted_names_occur (text : string) :
  let occurs name := contains (lower name) (lower text) = true in
  Forall occurs (extract_deities text) /\
  Forall occurs (extract_scriptures text) /\
  Forall occurs (extract_architectural_style text) /\
  Forall occurs (extract_festivals text).
Proof.
  intros occurs.
  assert (Hempty : forall x : string, x ∈ (∅ : gset string) -> occurs x).
  { intros x Hx. by apply not_elem_of_empty in Hx. }
  split; [|split; [|split]].
  - unfold extract_deities. destruct (is_empty text); [constructor|].
    apply Forall_forall. intros x Hx. apply elem_of_elements in Hx.
    revert x Hx. unfold deity_set. apply foldl_add_all.
    + intros acc d Hacc x. unfold add_known, add.
      destruct (contains (lower d) (lower text)) eqn:Hd; [|apply Hacc].
      rewrite elem_of_union, elem_of_singleton.
      intros [->|Hx]; [exact Hd | apply Hacc, Hx].
    + apply foldl_add_all; [|exact Hempty].
      intros acc p. apply add_matches_occur.
  - unfold extract_scriptures. destruct (is_empty text); [constructor|].
    apply Forall_forall. intros x Hx. apply elem_of_elements in Hx.
    revert x Hx. unfold scripture_set. apply foldl_add_all; [|exact Hempty].
    intros acc p.
    apply (foldl_matches_occur _ _ (fun m => within m text));
      [|apply findall_within].
    intros a m Hm Ha x. unfold add_scripture, add.
    rewrite elem_of_union, elem_of_singleton. intros [->|Hx]; [|apply Ha, Hx].
    apply added_name_occurs, Hm.
  - rewrite extract_architectural_style_filter.
    destruct (is_empty text); [constructor|].
    apply Forall_forall. intros x Hx.
    apply list_elem_of_In, filter_In in Hx. apply Hx.
  - unfold extract_festivals. destruct (is_empty text); [constructor|].
    apply Forall_forall. intros x Hx. apply elem_of_elements in Hx.
    revert x Hx. unfold festival_set. apply foldl_add_all; [|exact Hempty].
    intros acc p. apply add_matches_occur.
Qed.

(** *** Names are stripped and title-cased *)

Lemma title_from_idem s : forall b, title_from b (title_from b s) = title_from b s.
Proof.
  induction s as [|c s IH]; intros b; simpl; [reflexivity|].
  destruct b.
  - rewrite char_lower_idem, iscased_char_lower, IH. reflexivity.
  - rewrite char_upper_idem, iscased_char_upper, IH. reflexivity.
Qed.

Lemma title_idem s : title (title s) = title s.
Proof. apply title_from_idem. Qed.

Lemma same_spaces_no_lead s t : same_spaces s t -> no_lead s -> no_lead t.
Proof. destruct 1; simpl; congruence. Qed.

Lemma rstrip_len_id s : len (rstrip s) = len s -> rstrip s = s.
Proof.
  unfold len. induction s as [|c s IH]; simpl; [reflexivity|].
  destruct (rstrip s) as [|d t] eqn:Hr.
  - destruct (isspace c); simpl; [discriminate|].
    intros H. injection H as H. destruct s; [reflexivity | discriminate].
  - simpl in *. intros H. injection H as H. rewrite (IH H). reflexivity.
Qed.

Lemma same_spaces_stripped s t :
  same_spaces s t -> strip s = s -> strip t = t.
Proof.
  intros Hst Hs.
  assert (Hlead : no_lead t).
  { apply (same_spaces_no_lead s); [exact Hst|].
    rewrite <- Hs. apply rstrip_no_lead, lstrip_no_lead. }
  unfold strip. rewrite (lstrip_id t Hlead). apply rstrip_len_id.
  pose proof (same_spaces_len _ _ (strip_same_spaces _ _ Hst)) as Hlen.
  rewrite Hs in Hlen. unfold strip in Hlen. rewrite (lstrip_id t Hlead) in Hlen.
  rewrite <- Hlen. apply same_spaces_len, Hst.
Qed.

Lemma same_spaces_sym s t : same_spaces s t -> same_spaces t s.
Proof. induction 1; constructor; auto. Qed.

Lemma added_name_normal m :
  strip (title (strip m)) = title (strip m) /\
  title (title (strip m)) = title (strip m).
Proof.
  split; [|apply title_idem].
  apply (same_spaces_stripped (strip m)); [|apply strip_idem].
  apply same_spaces_sym, title_from_same_spaces.
Qed.


Lemma run_word {A : Type} w : forall s g (k : @cont A),
  run true (word w) s g k =
  match after_word w s with Some s' => k s' g | None => None end.
Proof.
  induction w as [|p w IH]; intros s g k; [reflexivity|].
  destruct w as [|q w].
  - cbn [word run]. destruct s as [|c s]; [reflexivity|].
    cbn [one_char after_word]. destruct (lit_matches true p c); reflexivity.
  - change (word (String p (String q w))) with (Seq (Lit p) (word (String q w))).
    cbn [run]. destruct s as [|c s]; [reflexivity|].
    cbn [one_char after_word]. destruct (lit_matches true p c); [|reflexivity].
    apply IH.
Qed.

Lemma run_alt_words {A : Type} ws : forall s g (k : @cont A),
  ws <> [] -> (forall s' g', k s' g' <> None) ->
  run true (alt_words ws) s g k =
  match first_word ws s with Some (_, s') => k s' g | None => None end.
Proof.
  induction ws as [|w ws IH]; intros s g k Hne Hk; [congruence|].
  destruct ws as [|w' ws].
  - cbn [alt_words first_word]. rewrite run_word.
    destruct (after_word w s); reflexivity.
  - change (alt_words (w :: w' :: ws)) with (Alt (word w) (alt_words (w' :: ws))).
    cbn [run first_word]. rewrite run_word.
    destruct (after_word w s) as [s'|].
    + destruct (k s' g) eqn:E; [reflexivity|]. by destruct (Hk s' g).
    + apply IH; [discriminate | exact Hk].
Qed.

Lemma after_word_split w : forall s s',
  after_word w s = Some s' ->
  exists m, s = m +:+ s' /\ lower m = lower w.
Proof.
  induction w as [|p w IH]; intros s s' H; cbn [after_word] in H.
  - injection H as ->. exists EmptyString. split; reflexivity.
  - destruct s as [|c s]; [discriminate H|].
    destruct (lit_matches true p c) eqn:Hc; [|discriminate H].
    destruct (IH s s' H) as (m & -> & Hm).
    exists (String c m). split; [reflexivity|]. simpl. rewrite Hm.
    unfold lit_matches in Hc. apply Ascii.eqb_eq in Hc. congruence.
Qed.

Lemma after_word_startswith w : forall s,
  startswith (lower w) (lower s) = true -> after_word w s <> None.
Proof.
  induction w as [|p w IH]; intros s H; cbn [after_word]; [discriminate|].
  destruct s as [|c s]; [discriminate H|]. simpl in H.
  destruct (Ascii.eqb_spec (char_lower p) (char_lower c)) as [E|];
    [|discriminate H].
  unfold lit_matches. rewrite <- E, Ascii.eqb_refl. apply IH, H.
Qed.

Lemma first_word_in ws : forall s v s',
  first_word ws s = Some (v, s') -> v ∈ ws /\ after_word v s = Some s'.
Proof.
  induction ws as [|w ws IH]; intros s v s' H; simpl in H; [discriminate|].
  destruct (after_word w s) as [t|] eqn:E.
  - injection H as -> ->. split; [apply elem_of_cons; by left | exact E].
  - destruct (IH s v s' H) as [Hin Hv].
    split; [apply elem_of_cons; by right | exact Hv].
Qed.

Lemma first_word_none ws : forall s w,
  first_word ws s = None -> w ∈ ws -> after_word w s = None.
Proof.
  induction ws as [|v ws IH]; intros s w H Hin; simpl in H.
  - by apply elem_of_nil in Hin.
  - destruct (after_word v s) eqn:E; [discriminate|].
    apply elem_of_cons in Hin as [->|Hin]; [exact E | apply IH; assumption].
Qed.

Lemma match_here_alt_words ws s :
  ws <> [] ->
  match_here true (Capture (alt_words ws)) s =
  match first_word ws s with
  | Some (_, s') =>
      Some (s', Some (String.substring 0 (len s - len s') s))
  | None => None
  end.
Proof.
  intros Hne. unfold match_here. cbn [run].
  rewrite run_alt_words; [|exact Hne|discriminate].
  destruct (first_word ws s) as [[v s']|]; reflexivity.
Qed.

Lemma startswith_compatible w : forall a r,
  startswith w (a +:+ r) = true -> compatible a w = true.
Proof.
  induction w as [|y w IH]; intros a r H.
  - destruct a; reflexivity.
  - destruct a as [|x a]; [reflexivity|].
    rewrite append_cons in H. simpl in H. simpl.
    destruct (Ascii.eqb_spec y x) as [->|]; [|discriminate].
    rewrite Ascii.eqb_refl. simpl. apply (IH a r H).
Qed.

Lemma apart_contains v w : forall r,
  apart v w = true -> contains w (v +:+ r) = true -> contains w r = true.
Proof.
  induction v as [|x v IH]; intros r Ha Hc; [exact Hc|].
  cbn [apart] in Ha. apply andb_true_iff in Ha as [Hx Hv].
  rewrite append_cons in Hc. cbn [contains] in Hc.
  apply orb_true_iff in Hc as [Hs|Hc]; [|apply (IH r Hv Hc)].
  rewrite <- append_cons in Hs. apply startswith_compatible in Hs.
  rewrite Hs in Hx. discriminate Hx.
Qed.

Lemma stands_out_spec ws w :
  stands_out ws w = true ->
  w ∈ ws /\ w <> EmptyString /\ ws <> [] /\
  (forall v, v ∈ ws -> v <> EmptyString) /\
  (forall v, v ∈ ws -> v <> w -> apart (lower v) (lower w) = true).
Proof.
  unfold stands_out. rewrite !andb_true_iff, !forallb_forall, existsb_exists.
  intros [[[Hap (x & Hx & Hxw)] Hw] Hne].
  apply String.eqb_eq in Hxw. subst x.
  assert (Hin : w ∈ ws) by (apply list_elem_of_In; exact Hx).
  split; [exact Hin|]. split; [destruct w; [discriminate|congruence]|].
  split; [intros ->; by apply elem_of_nil in Hin|]. split.
  - intros v Hv ->. apply list_elem_of_In, Hne in Hv. discriminate.
  - intros v Hv Hvw. apply list_elem_of_In, Hap in Hv.
    apply orb_true_iff in Hv as [Hv|Hv]; [|exact Hv].
    apply String.eqb_eq in Hv. congruence.
Qed.

(** A word that stands out among the alternatives is found wherever it
    occurs. *)
Lemma findall_from_word ws w :
  stands_out ws w = true ->
  forall positions s,
    len s < positions ->
    contains (lower w) (lower s) = true ->
    exists m, m ∈ findall_from positions true (Capture (alt_words ws)) s /\
              lower m = lower w.
Proof.
  intros Hso. destruct (stands_out_spec ws w Hso) as (Hin & Hw & Hne & Hall & Hap).
  induction positions as [|n IH]; intros s Hlen Hc; [lia|].
  cbn [findall_from]. rewrite (match_here_alt_words ws s Hne).
  destruct (first_word ws s) as [[v s']|] eqn:Hf.
  - destruct (first_word_in ws s v s' Hf) as [Hv Hafter].
    destruct (after_word_split v s s' Hafter) as (m & -> & Hm).
    assert (Hmlen : 0 < len m).
    { destruct m; [|unfold len; simpl; lia].
      specialize (Hall v Hv). destruct v; [congruence | discriminate Hm]. }
    rewrite len_append.
    replace (len m + len s' - len s') with (len m) by lia.
    rewrite substring_prefix. cbn [default].
    destruct (decide (v = w)) as [->|Hvw].
    + exists m. split; [apply elem_of_cons; by left | exact Hm].
    + assert (Hlt : (len s' <? len m + len s') = true)
        by (apply Nat.ltb_lt; lia).
      rewrite Hlt.
      rewrite lower_append, Hm in Hc.
      apply (apart_contains _ _ _ (Hap v Hv Hvw)) in Hc.
      rewrite len_append in Hlen.
      destruct (IH s' ltac:(lia) Hc) as (m' & Hin' & Hm').
      exists m'. split; [apply elem_of_cons; by right | exact Hm'].
  - destruct s as [|c t].
    { destruct (lower w) eqn:E; [|discriminate Hc].
      destruct w; [congruence | discriminate E]. }
    simpl in Hc. apply orb_true_iff in Hc as [Hs|Hc].
    + exfalso. apply (after_word_startswith w (String c t)); [exact Hs|].
      apply (first_word_none ws); assumption.
    + unfold len in Hlen. simpl in Hlen.
      apply (IH t); [unfold len; lia | exact Hc].
Qed.

Lemma findall_word ws w text :
  stands_out ws w = true ->
  contains (lower w) (lower text) = true ->
  exists m, m ∈ findall (Capture (alt_words ws)) text IGNORECASE /\
            lower m = lower w.
Proof.
  intros Hso Hc. unfold findall. apply findall_from_word; [exact Hso|lia|exact Hc].
Qed.


Lemma findall_from_ext ignorecase r1 r2 :
  (forall s, match_here ignorecase r1 s = match_here ignorecase r2 s) ->
  forall positions s,
    findall_from positions ignorecase r1 s =
    findall_from positions ignorecase r2 s.
Proof.
  intros H. induction positions as [|n IH]; intros s; simpl; [reflexivity|].
  rewrite H. destruct (match_here ignorecase r2 s) as [[s' g]|].
  - f_equal. destruct (len s' <? len s); [apply IH|].
    destruct s; [reflexivity | apply IH].
  - destruct s; [reflexivity | apply IH].
Qed.

Lemma after_word_app w1 w2 : forall s,
  after_word (w1 +:+ w2) s =
  match after_word w1 s with Some s' => after_word w2 s' | None => None end.
Proof.
  induction w1 as [|p w1 IH]; intros s; [reflexivity|].
  rewrite append_cons. cbn [after_word]. destruct s as [|c s]; [reflexivity|].
  destruct (lit_matches true p c); [apply IH | reflexivity].
Qed.

(** The second scripture pattern matches as the alternation of
    [epic_words] does. *)
Lemma epics_pattern_words s :
  exists p, scripture_patterns !! 1 = Some p /\
            match_here true p s = match_here true (Capture (alt_words epic_words)) s.
Proof.
  eexists. split; [reflexivity|].
  unfold match_here. cbn [run alt_words epic_words named_epics app].
  rewrite !run_word.
  destruct (after_word "Mahabharata" s); [reflexivity|].
  destruct (after_word "Ramayana" s); [reflexivity|].
  destruct (after_word "Bhagavad Gita" s); [reflexivity|].
  change "Vedas"%string with ("Veda" +:+ "s")%string.
  rewrite after_word_app.
  destruct (after_word "Veda" s) as [s1|]; [|reflexivity].
  destruct s1 as [|c s1]; [reflexivity|].
  cbn [one_char after_word]. destruct (lit_matches true "s" c); reflexivity.
Qed.

(** A match that is a name in another case is added under the name. *)
Lemma add_match_named n w m acc :
  lower m = lower w -> n < len (strip w) -> title (strip w) = w ->
  w ∈ add_match n acc m.
Proof.
  intros Hm Hlen Htitle. apply same_letters_lower in Hm.
  unfold add_match, add.
  rewrite (same_letters_len _ _ (strip_same_letters _ _ Hm)).
  rewrite (proj2 (Nat.ltb_lt _ _) Hlen).
  rewrite (title_strip_same_letters _ _ Hm), Htitle. set_solver.
Qed.

Lemma foldl_add_match_named n w (l : list string) m :
  m ∈ l -> lower m = lower w -> n < len (strip w) -> title (strip w) = w ->
  forall acc, w ∈ foldl (add_match n) acc l.
Proof.
  intros Hin Hm Hlen Htitle. induction l as [|x l IH]; intros acc; simpl.
  - by apply elem_of_nil in Hin.
  - apply elem_of_cons in Hin as [<-|Hin]; [|apply IH, Hin].
    apply (foldl_add_keeps _ _ (add_match_keeps n)).
    apply add_match_named; assumption.
Qed.

Lemma foldl_patterns_named (f : gset string -> regex -> gset string)
    (ps : list regex) p w :
  (forall acc q, acc ⊆ f acc q) ->
  p ∈ ps -> (forall acc, w ∈ f acc p) ->
  forall acc, w ∈ foldl f acc ps.
Proof.
  intros Hkeep Hin Hp. induction ps as [|q ps IH]; intros acc; simpl.
  - by apply elem_of_nil in Hin.
  - apply elem_of_cons in Hin as [<-|Hin]; [|apply IH, Hin].
    apply (foldl_add_keeps _ _ Hkeep). apply Hp.
Qed.

Lemma contains_text_nonempty w text :
  w <> EmptyString -> contains (lower w) (lower text) = true ->
  is_empty text = false.
Proof.
  intros Hw Hc. destruct text; [|reflexivity].
  destruct w; [congruence | discriminate Hc].
Qed.

(** X5. On texts of code points U+0000..U+00FF each of the four festivals
    the third festival pattern names is returned by [extract_festivals]
    whenever its name occurs in the text, in any case and also inside a
    longer word.  Texts with a character beyond U+00FF are outside the
    statement: U+0130 lower-cases to an i followed by a dot, and the name
    matched with it is returned with the dot. *)
Theorem named_festival_found (text w : string) :
  w ∈ named_festivals ->
  contains (lower w) (lower text) = true ->
  w ∈ extract_festivals text.
Proof.
  intros Hin Hc.
  assert (Hfacts : stands_out named_festivals w = true /\
                   3 < len (strip w) /\ title (strip w) = w /\
                   w <> EmptyString).
  { unfold named_festivals in Hin.
    repeat (apply elem_of_cons in Hin as [->|Hin];
            [repeat split; (reflexivity || (vm_compute; lia) || discriminate)|]).
    by apply elem_of_nil in Hin. }
  destruct Hfacts as (Hso & Hlen & Htitle & Hne).
  unfold extract_festivals. rewrite (contains_text_nonempty w text Hne Hc).
  apply elem_of_elements. unfold festival_set.
  destruct (findall_word _ _ text Hso Hc) as (m & Hm & Hlower).
  apply (foldl_patterns_named _ _ (Capture (alt_words named_festivals)));
    [intros; apply add_matches_keeps | by_listing |].
  intros acc. unfold add_matches.
  apply (foldl_add_match_named 3 w _ m); assumption.
Qed.

Lemma named_festival_found_witness :
  "Navaratri"%string ∈ named_festivals /\
  contains (lower "Navaratri") (lower "During NAVARATRIs the hall is lit") = true /\
  "Navaratri"%string ∈ extract_festivals "During NAVARATRIs the hall is lit".
Proof.
  assert (Hin : "Navaratri"%string ∈ named_festivals) by by_listing.
  split; [exact Hin|]. split; [reflexivity|].
  apply (named_festival_found _ _ Hin). reflexivity.
Defined.

Lemma add_scripture_keeps acc m : acc ⊆ add_scripture acc m.
Proof. unfold add_scripture, add. set_solver. Qed.

Lemma foldl_add_scripture_named w (l : list string) m :
  m ∈ l -> lower m = lower w -> title (strip w) = w ->
  forall acc, w ∈ foldl add_scripture acc l.
Proof.
  intros Hin Hm Htitle. induction l as [|x l IH]; intros acc; simpl.
  - by apply elem_of_nil in Hin.
  - apply elem_of_cons in Hin as [<-|Hin]; [|apply IH, Hin].
    apply (foldl_add_keeps _ _ add_scripture_keeps).
    unfold add_scripture, add. apply same_letters_lower in Hm.
    rewrite (title_strip_same_letters _ _ Hm), Htitle. set_solver.
Qed.

(** X6. Mahabharata, Ramayana, Bhagavad Gita and the four Puranas the
    third scripture pattern names are returned by [extract_scriptures]
    whenever their name occurs in the text, in any case. *)
Theorem named_scripture_found (text w : string) :
  w ∈ named_epics ++ named_puranas ->
  contains (lower w) (lower text) = true ->
  w ∈ extract_scriptures text.
Proof.
  intros Hin Hc.
  assert (Hfacts : (stands_out epic_words w = true \/
                    stands_out named_puranas w = true) /\
                   title (strip w) = w /\ w <> EmptyString).
  { unfold named_epics, named_puranas in Hin. simpl in Hin.
    repeat (apply elem_of_cons in Hin as [->|Hin];
            [split; [(left; reflexivity) || (right; reflexivity)
                    | split; [reflexivity | discriminate]]|]).
    by apply elem_of_nil in Hin. }
  destruct Hfacts as (Hso & Htitle & Hne).
  unfold extract_scriptures. rewrite (contains_text_nonempty w text Hne Hc).
  apply elem_of_elements. unfold scripture_set.
  assert (Hkeep : forall acc q,
            acc ⊆ foldl add_scripture acc (findall q text IGNORECASE)).
  { intros acc q. apply foldl_add_keeps, add_scripture_keeps. }
  destruct Hso as [Hso|Hso].
  - destruct (findall_word _ _ text Hso Hc) as (m & Hm & Hlower).
    destruct (epics_pattern_words EmptyString) as (p & Hp & _).
    apply (foldl_patterns_named _ _ p); [exact Hkeep| |].
    + apply list_elem_of_lookup. eauto.
    + intros acc. apply (foldl_add_scripture_named w _ m); [|assumption..].
      unfold findall in *.
      rewrite (findall_from_ext true p (Capture (alt_words epic_words)));
        [exact Hm|].
      intros s. destruct (epics_pattern_words s) as (p' & Hp' & Heq).
      rewrite Hp in Hp'. injection Hp' as <-. exact Heq.
  - destruct (findall_word _ _ text Hso Hc) as (m & Hm & Hlower).
    apply (foldl_patterns_named _ _ (Capture (alt_words named_puranas)));
      [exact Hkeep | by_listing |].
    intros acc. apply (foldl_add_scripture_named w _ m); assumption.
Qed.

Lemma named_scripture_found_witness :
  "Ramayana"%string ∈ named_epics ++ named_puranas /\
  contains (lower "Ramayana") (lower "told in the ramayana") = true /\
  "Ramayana"%string ∈ extract_scriptures "told in the ramayana".
Proof.
  assert (Hin : "Ramayana"%string ∈ named_epics ++ named_puranas) by by_listing.
  split; [exact Hin|]. split; [reflexivity|].
  apply (named_scripture_found _ _ Hin). reflexivity.
Defined.

(** X4. Every name [extract_festivals] returns is longer than three
    characters once stripped. *)
Theorem extract_festivals_longer_than_three (text : string) :
  Forall (fun name => 3 < len (strip name)) (extract_festivals text).
Proof.
  unfold extract_festivals. destruct (is_empty text); [constructor|].
  apply Forall_forall. intros x Hx. apply elem_of_elements in Hx.
  revert x Hx. unfold festival_set. apply foldl_add_all.
  - intros acc p. apply add_matches_long.
  - intros x Hx. by apply not_elem_of_empty in Hx.
Qed.

Lemma known_names_normal :
  Forall (fun d => strip d = d /\ title d = d) (common_deities ++ style_vocabulary).
Proof. repeat constructor. Qed.

(** X3. On texts of code points U+0000..U+00FF every name the four
    extractors return is stripped and in title case: [strip] and [title]
    leave it as it is.  Texts with a character beyond U+00FF are outside the
    statement: a captured U+0130 is title-cased to two characters, which
    [title] changes again. *)
Theorem extracted_names_normalised (text : string) :
  let normal name := strip name = name /\ title name = name in
  Forall normal (extract_deities text) /\
  Forall normal (extract_scriptures text) /\
  Forall normal (extract_architectural_style text) /\
  Forall normal (extract_festivals text).
Proof.
  intros normal.
  assert (Hempty : forall x : string, x ∈ (∅ : gset string) -> normal x).
  { intros x Hx. by apply not_elem_of_empty in Hx. }
  assert (Hmatch : forall n acc m,
            (forall x, x ∈ acc -> normal x) ->
            forall x, x ∈ add_match n acc m -> normal x).
  { intros n acc m Hacc x. unfold add_match, add. case_match; [|apply Hacc].
    rewrite elem_of_union, elem_of_singleton.
    intros [->|Hx]; [apply added_name_normal | apply Hacc, Hx]. }
  assert (Hmatches : forall n acc p,
            (forall x, x ∈ acc -> normal x) ->
            forall x, x ∈ add_matches n text acc p -> normal x).
  { intros n acc p. unfold add_matches. apply foldl_add_all.
    intros a m. apply Hmatch. }
  pose proof known_names_normal as Hknown. rewrite Forall_forall in Hknown.
  split; [|split; [|split]].
  - unfold extract_deities. destruct (is_empty text); [constructor|].
    apply Forall_forall. intros x Hx. apply elem_of_elements in Hx.
    revert x Hx. unfold deity_set.
    assert (Hloop : forall (l : list string) acc,
              (forall d, d ∈ l -> normal d) ->
              (forall x, x ∈ acc -> normal x) ->
              forall x, x ∈ foldl (add_known text) acc l -> normal x).
    { induction l as [|d l IH]; intros acc Hl Hacc x; simpl; [apply Hacc|].
      apply IH; [intros d' Hd'; apply Hl, elem_of_cons; by right|].
      intros y. unfold add_known, add. case_match; [|apply Hacc].
      rewrite elem_of_union, elem_of_singleton.
      intros [->|Hy]; [apply Hl, elem_of_cons; by left | apply Hacc, Hy]. }
    apply Hloop.
    + intros d Hd. apply Hknown, elem_of_app. by left.
    + apply foldl_add_all; [|exact Hempty]. intros acc p. apply Hmatches.
  - unfold extract_scriptures. destruct (is_empty text); [constructor|].
    apply Forall_forall. intros x Hx. apply elem_of_elements in Hx.
    revert x Hx. unfold scripture_set. apply foldl_add_all; [|exact Hempty].
    intros acc p. apply foldl_add_all. intros a m Ha x.
    unfold add_scripture, add. rewrite elem_of_union, elem_of_singleton.
    intros [->|Hx]; [apply added_name_normal | apply Ha, Hx].
  - apply Forall_forall. intros x Hx.
    apply Hknown, elem_of_app. right.
    rewrite extract_architectural_style_filter in Hx.
    destruct (is_empty text); [by apply elem_of_nil in Hx|].
    eapply elem_of_sublist; [exact Hx | apply filter_sublist].
  - unfold extract_festivals. destruct (is_empty text); [constructor|].
    apply Forall_forall. intros x Hx. apply elem_of_elements in Hx.
    revert x Hx. unfold festival_set. apply foldl_add_all; [|exact Hempty].
    intros acc p. apply Hmatches.
Qed.

End MatcherFacts.

(** ** More on the store, the loader and the queries *)

Module StoreFacts.

Import PyStr Json Graph TempleGraphDB Notions Reporting StoreNotions.
Import GraphFacts LoaderFacts ExtractorFacts.

Local Open Scope nat_scope.
Local Open Scope action_scope.

Lemma keeps_skip I : keeps I skip.
Proof. intros s H. exact H. Qed.

Lemma keeps_raise I : keeps I raise.
Proof. intros s H. exact H. Qed.

Lemma keeps_and_then I (a b : action) : keeps I a -> keeps I b -> keeps I (a ;; b).
Proof.
  intros Ha Hb s H. unfold and_then. specialize (Ha s H).
  destruct (a s) as [s1|s1]; simpl in *; [apply Hb, Ha | exact Ha].
Qed.

Lemma keeps_for_each {B : Type} I (xs : list B) (body : B -> action) :
  (forall x, keeps I (body x)) -> keeps I (for_each xs body).
Proof.
  intros Hbody. induction xs as [|x xs IH]; simpl.
  - apply keeps_skip.
  - apply keeps_and_then; [apply Hbody | exact IH].
Qed.

(** *** Adding a node *)

Lemma fresh_id_new s : fresh_id s ∉ ids s.
Proof.
  unfold ids. intros Hin. apply list_elem_of_fmap in Hin as (n & Hid & Hn).
  apply fresh_id_above in Hn. lia.
Qed.

Lemma anchored_more_nodes s n e : anchored s e -> anchored (with_node n s) e.
Proof.
  intros (t & x & Ht & Hx & H). exists t, x.
  split; [apply elem_of_app; by left|].
  split; [apply elem_of_app; by left | exact H].
Qed.

Lemma string_key_in s n k :
  n ∈ nodes s -> string_key n = Some k -> k ∈ string_keys s.
Proof.
  intros Hn Hk. unfold string_keys. apply list_elem_of_omap. eauto.
Qed.

Lemma string_keys_named s L x :
  (L, x) ∈ string_keys s -> existsb (named L (JStr x)) (nodes s) = true.
Proof.
  unfold string_keys. intros Hin.
  apply list_elem_of_omap in Hin as (n & Hn & Hk).
  apply existsb_exists. exists n. split; [apply list_elem_of_In, Hn|].
  apply named_string. unfold string_key in Hk.
  destruct (prop "name" n) as [[]|]; try discriminate Hk.
  injection Hk as -> ->. split; reflexivity.
Qed.

(** A node may be added when its identity is new and its name, if a
    string, is not yet taken under its label. *)
Lemma with_node_consistent s n :
  consistent s -> node_id n = fresh_id s ->
  (forall x, prop "name" n = Some (JStr x) ->
             existsb (named (node_label n) (JStr x)) (nodes s) = false) ->
  consistent (with_node n s).
Proof.
  intros (Hids & Hedges & Hanch & Hkeys) Hid Hname.
  split; [|split; [|split]].
  - unfold ids, with_node. simpl. rewrite map_app. simpl.
    apply NoDup_app. split; [exact Hids|]. split; [|apply NoDup_singleton].
    intros i Hi Hi'. apply list_elem_of_singleton in Hi'. subst i.
    rewrite Hid in Hi. by apply fresh_id_new in Hi.
  - exact Hedges.
  - simpl. eapply Forall_impl; [exact Hanch|]. intros e. apply anchored_more_nodes.
  - unfold string_keys, with_node. simpl. rewrite omap_app. simpl.
    destruct (string_key n) as [[L x]|] eqn:Hk; [|rewrite app_nil_r; exact Hkeys].
    apply NoDup_app. split; [exact Hkeys|]. split; [|apply NoDup_singleton].
    intros k Hk1 Hk2. apply list_elem_of_singleton in Hk2. subst k.
    apply string_keys_named in Hk1.
    unfold string_key in Hk. destruct (prop "name" n) as [[]|] eqn:Hp;
      try discriminate Hk.
    injection Hk as <- <-. rewrite (Hname _ eq_refl) in Hk1. discriminate.
Qed.

Lemma create_node_guarded props : keeps guarded (create_node Temple props).
Proof.
  intros s [Hu Hc]. unfold create_node.
  rewrite (bool_decide_eq_true_2 _ Hu). cbn [andb].
  destruct (assoc "name" props) as [v|] eqn:Hv.
  - destruct (existsb (named Temple v) (nodes s)) eqn:He; simpl;
      [split; assumption|].
    split; [exact Hu|]. apply (with_node_consistent s (Node _ _ _) Hc);
      [reflexivity|].
    unfold prop. simpl. rewrite Hv. intros x Hx. injection Hx as ->. exact He.
  - simpl. split; [exact Hu|].
    apply (with_node_consistent s (Node _ _ _) Hc); [reflexivity|].
    unfold prop. simpl. rewrite Hv. discriminate.
Qed.

Lemma merge_node_consistent L name s :
  consistent s -> consistent (merge_node L name s).1.
Proof.
  intros Hc. unfold merge_node.
  destruct (List.filter (named L name) (nodes s)) eqn:Hf; simpl; [|exact Hc].
  apply (with_node_consistent s (Node _ _ _) Hc); [reflexivity|].
  unfold prop. simpl. intros x Hx. injection Hx as ->.
  apply filter_nil_existsb, Hf.
Qed.

(** The identities [MERGE] binds are those of nodes of the label. *)
Lemma merge_node_bound L name s x :
  x ∈ (merge_node L name s).2 ->
  exists n, n ∈ nodes (merge_node L name s).1 /\ node_id n = x /\ node_label n = L.
Proof.
  unfold merge_node.
  destruct (List.filter (named L name) (nodes s)) as [|r found] eqn:Hf;
    cbn [fst snd].
  - intros Hx. apply list_elem_of_singleton in Hx. subst x.
    eexists. split; [apply elem_of_app; right; apply list_elem_of_singleton;
                     reflexivity|]. split; reflexivity.
  - intros Hx. apply list_elem_of_fmap in Hx as (n & -> & Hn).
    rewrite <- Hf in Hn. apply filter_elem_of in Hn as [Hn Hnamed].
    exists n. split; [exact Hn|]. split; [reflexivity|].
    unfold named in Hnamed. apply andb_true_iff in Hnamed as [Hl _].
    apply bool_decide_eq_true in Hl. exact Hl.
Qed.

(** *** Adding a relationship *)

Lemma merge_edge_consistent R x s t :
  consistent s -> anchored s (Edge t R x) -> consistent (merge_edge R x s t).
Proof.
  intros (Hids & Hedges & Hanch & Hkeys) He. unfold merge_edge.
  case_bool_decide as Hin; [repeat split; assumption|].
  split; [exact Hids|]. split; [|split; [|exact Hkeys]]; simpl.
  - apply NoDup_app. split; [exact Hedges|]. split; [|apply NoDup_singleton].
    intros e He1 He2. apply list_elem_of_singleton in He2. subst e. contradiction.
  - apply Forall_app. split; [exact Hanch|]. constructor; [exact He|constructor].
Qed.

Lemma merge_edge_nodes R x s t : nodes (merge_edge R x s t) = nodes s.
Proof. unfold merge_edge. case_bool_decide; reflexivity. Qed.

Lemma anchored_same_nodes s s' e : nodes s' = nodes s -> anchored s e -> anchored s' e.
Proof. intros Hn (t & x & H). exists t, x. rewrite Hn. exact H. Qed.

Lemma merge_edges_consistent R x ts : forall s,
  consistent s -> (forall t, t ∈ ts -> anchored s (Edge t R x)) ->
  consistent (foldl (merge_edge R x) s ts) /\
  nodes (foldl (merge_edge R x) s ts) = nodes s.
Proof.
  induction ts as [|t ts IH]; intros s Hc Hts; simpl; [split; [exact Hc|reflexivity]|].
  destruct (IH (merge_edge R x s t)) as [Hc' Hn'].
  - apply merge_edge_consistent; [exact Hc|]. apply Hts, elem_of_cons. by left.
  - intros t' Ht'. apply (anchored_same_nodes s); [apply merge_edge_nodes|].
    apply Hts, elem_of_cons. by right.
  - split; [exact Hc'|]. rewrite Hn'. apply merge_edge_nodes.
Qed.

Lemma merge_all_edges_consistent R ts xs : forall s,
  consistent s ->
  (forall t x, t ∈ ts -> x ∈ xs -> anchored s (Edge t R x)) ->
  consistent (foldl (fun s2 x => foldl (merge_edge R x) s2 ts) s xs).
Proof.
  induction xs as [|x xs IH]; intros s Hc H; simpl; [exact Hc|].
  destruct (merge_edges_consistent R x ts s Hc) as [Hc' Hn'].
  - intros t Ht. apply H; [exact Ht | apply elem_of_cons; by left].
  - apply IH; [exact Hc'|]. intros t x' Ht Hx'.
    apply (anchored_same_nodes s); [exact Hn'|].
    apply H; [exact Ht | apply elem_of_cons; by right].
Qed.

Lemma merge_related_consistent R name temple_name :
  keeps consistent (merge_related (target R) R name temple_name).
Proof.
  intros s Hc. unfold merge_related.
  pose proof (merge_node_consistent (target R) name s Hc) as Hc1.
  pose proof (merge_node_bound (target R) name s) as Hbound.
  destruct (merge_node (target R) name s) as [s1 xs]; cbn [fst snd final] in *.
  apply merge_all_edges_consistent; [exact Hc1|].
  intros t x Ht Hx.
  apply list_elem_of_fmap in Ht as (tn & -> & Htn).
  apply filter_elem_of in Htn as [Htn Hnamed].
  destruct (Hbound x Hx) as (xn & Hxn & Hxid & Hxl).
  exists tn, xn. repeat split; try assumption.
  unfold named in Hnamed. apply andb_true_iff in Hnamed as [Hl _].
  apply bool_decide_eq_true in Hl. exact Hl.
Qed.

Lemma merge_related_guarded R name temple_name :
  keeps guarded (merge_related (target R) R name temple_name).
Proof.
  intros s [Hu Hc]. split; [|apply merge_related_consistent, Hc].
  destruct (merge_related_adds (target R) R name temple_name s)
    as (_ & _ & _ & _ & -> & _). exact Hu.
Qed.

(** *** The methods *)

Lemma create_temple_node_guarded temple : keeps guarded (create_temple_node temple).
Proof.
  unfold create_temple_node. destruct (temple_props temple).
  - apply create_node_guarded.
  - apply keeps_raise.
Qed.

Lemma create_relationships_guarded self temple :
  keeps guarded (create_relationships self temple).
Proof.
  unfold create_relationships.
  destruct (get temple "name" empty_str); [|apply keeps_raise].
  destruct (get temple "state" empty_str); [|apply keeps_raise].
  destruct (all_text temple); [|apply keeps_raise].
  repeat apply keeps_and_then.
  - destruct (truthy _); [apply (merge_related_guarded LOCATED_IN) | apply keeps_skip].
  - apply keeps_for_each. intros x. apply (merge_related_guarded DEDICATED_TO).
  - apply keeps_for_each. intros x. apply (merge_related_guarded MENTIONED_IN).
  - apply keeps_for_each. intros x. apply (merge_related_guarded HAS_STYLE).
  - apply keeps_for_each. intros x. apply (merge_related_guarded CELEBRATES).
Qed.

Lemma load_temple_guarded self temple : keeps guarded (load_temple self temple).
Proof.
  apply keeps_and_then;
    [apply create_temple_node_guarded | apply create_relationships_guarded].
Qed.

Lemma load_states_guarded self data : keeps guarded (load_states self data).
Proof.
  unfold load_states. destruct data; try apply keeps_raise.
  apply keeps_for_each. intros [state temples].
  destruct (iterate temples); [|apply keeps_raise].
  apply keeps_for_each. intros temple. apply load_temple_guarded.
Qed.

Lemma cleared_guarded u : guarded (Store [] [] (declare u)).
Proof.
  split.
  - simpl. apply foldl_declare_has. unfold constraints.
    apply elem_of_cons. by left.
  - repeat split; simpl; constructor.
Qed.

Lemma load_temple_data_guarded self data s :
  guarded (final (load_temple_data self data s)).
Proof.
  rewrite load_temple_data_cleared. cbn [final].
  apply load_states_guarded, cleared_guarded.
Qed.

(** X9. After [load_temple_data], whatever the document and the store
    before: no two nodes share an identity, no relationship is there twice,
    and every relationship starts at a Temple node of the store and ends at
    a node of the store that has the label its type calls for. *)
Theorem loaded_graph_well_formed (self : methods) (data : json) (s : store) :
  let s' := final (load_temple_data self data s) in
  NoDup (ids s') /\ NoDup (edges s') /\ Forall (anchored s') (edges s').
Proof.
  intros s'. destruct (load_temple_data_guarded self data s)
    as (_ & H1 & H2 & H3 & _).
  repeat split; assumption.
Qed.

(** X10. After [load_temple_data] no two nodes with the same label have the
    same string as their name: [MERGE] reuses the node that is there, and a
    second Temple of a name is refused. *)
Theorem loaded_names_unique (self : methods) (data : json) (s : store) :
  NoDup (string_keys (final (load_temple_data self data s))).
Proof.
  destruct (load_temple_data_guarded self data s) as (_ & _ & _ & _ & H).
  exact H.
Qed.


Lemma counts_and_then c w1 w2 (a b : action) :
  counts c w1 a -> counts c w2 b -> counts c (w1 + w2) (a ;; b).
Proof.
  intros Ha Hb s. destruct (Ha s) as [Ha1 Ha2]. unfold and_then.
  destruct (a s) as [s1|s1]; simpl in *.
  - destruct (Hb s1) as [Hb1 Hb2]. specialize (Ha2 s1 eq_refl). split; [lia|].
    intros s' Hs'. rewrite (Hb2 s' Hs'). lia.
  - split; [lia | discriminate].
Qed.

Lemma counts_for_each {B : Type} c (w : B -> nat) (xs : list B)
    (body : B -> action) :
  (forall x, counts c (w x) (body x)) ->
  counts c (sum_list (map w xs)) (for_each xs body).
Proof.
  intros Hbody. induction xs as [|x xs IH]; simpl.
  - intros s. split; [simpl; lia|]. intros s' H. injection H as <-. lia.
  - apply counts_and_then; [apply Hbody | exact IH].
Qed.

Lemma counts_raise c : counts c 0 raise.
Proof. intros s. split; [simpl; lia | discriminate]. Qed.

Lemma sum_list_ones {B : Type} (l : list B) : sum_list (map (fun _ => 1) l) = length l.
Proof. induction l; simpl; congruence. Qed.

Lemma count_labelled L s : count L s = length (labelled L s).
Proof. reflexivity. Qed.

Lemma load_temple_counts self temple : counts (count Temple) 1 (load_temple self temple).
Proof.
  unfold load_temple. change 1 with (1 + 0). apply counts_and_then.
  - intros s. unfold create_temple_node.
    destruct (temple_props temple) as [props|]; [|split; [simpl; lia|discriminate]].
    unfold create_node. destruct (_ && _); [split; [simpl; lia|discriminate]|].
    assert (Hc : count Temple (with_node (Node (fresh_id s) Temple props) s)
                 = count Temple s + 1).
    { unfold count, with_node. simpl. rewrite List.filter_app, length_app.
      reflexivity. }
    split; [simpl; fold (with_node (Node (fresh_id s) Temple props) s); lia|].
    intros s' H. injection H as <-. exact Hc.
  - intros s.
    assert (Hsame : count Temple (final (create_relationships self temple s))
                    = count Temple s).
    { rewrite !count_labelled. f_equal.
      eapply adds_labelled; [|apply create_relationships_adds].
      intros n Hn. exact Hn. }
    split; [lia|]. intros s' H. rewrite H in Hsame. simpl in Hsame. lia.
Qed.

Lemma load_states_counts self data :
  counts (count Temple) (records data) (load_states self data).
Proof.
  unfold load_states, records. destruct data; try apply counts_raise.
  apply counts_for_each. intros [state temples]. unfold region_records. simpl.
  destruct (iterate temples) as [l|]; [|apply counts_raise].
  rewrite <- sum_list_ones. apply counts_for_each.
  intros temple. apply load_temple_counts.
Qed.

(** *** [create_constraints] *)


Lemma create_constraints_foldl (ls : list label) : forall s,
  for_each ls (fun c => try_ (create_constraint c)) s =
  Returned (foldl constrained s ls).
Proof.
  induction ls as [|L ls IH]; intros s; simpl; [reflexivity|].
  unfold and_then at 1. unfold try_ at 1. apply IH.
Qed.

Lemma constrained_graph s L :
  nodes (constrained s L) = nodes s /\ edges (constrained s L) = edges s /\
  (forall L', L' ∈ unique_name s -> L' ∈ unique_name (constrained s L)) /\
  (names_differ L (nodes s) = true -> L ∈ unique_name (constrained s L)).
Proof.
  unfold constrained, create_constraint.
  case_bool_decide as Hin; simpl; [repeat split; auto|].
  destruct (names_differ L (nodes s)); simpl.
  - repeat split; [|intros _; apply elem_of_app; right;
                    apply list_elem_of_singleton; reflexivity].
    intros L' HL'. apply elem_of_app. by left.
  - repeat split; [auto | discriminate].
Qed.

(** Asking again changes nothing. *)
Lemma constrained_fixed s L :
  constrained s L = s <->
  L ∈ unique_name s \/ names_differ L (nodes s) = false.
Proof.
  unfold constrained, create_constraint.
  case_bool_decide as Hin; simpl; [tauto|].
  destruct (names_differ L (nodes s)) eqn:Hd; simpl; [|tauto].
  split; [|intros [?|?]; [contradiction | discriminate]].
  intros H. left. rewrite <- H. simpl.
  apply elem_of_app. right. apply list_elem_of_singleton. reflexivity.
Qed.

Lemma constrained_settled s L L' :
  constrained s L = s -> constrained (constrained s L') L = constrained s L'.
Proof.
  rewrite !constrained_fixed.
  destruct (constrained_graph s L') as (Hn & He & Hu & _).
  rewrite Hn. intros [H|H]; [left; apply Hu, H | right; exact H].
Qed.

Lemma constrained_idem s L : constrained (constrained s L) L = constrained s L.
Proof.
  apply constrained_fixed.
  destruct (constrained_graph s L) as (Hn & He & Hu & Hd). rewrite Hn.
  destruct (names_differ L (nodes s)); [left; apply Hd; reflexivity | by right].
Qed.

Lemma foldl_constrained_settled ls : forall s L,
  constrained s L = s -> constrained (foldl constrained s ls) L = foldl constrained s ls.
Proof.
  induction ls as [|L' ls IH]; intros s L H; simpl; [exact H|].
  apply IH, constrained_settled, H.
Qed.

Lemma foldl_constrained_idem ls : forall s,
  foldl constrained (foldl constrained s ls) ls = foldl constrained s ls.
Proof.
  assert (Hfix : forall ls' s,
            (forall L, L ∈ ls' -> constrained s L = s) ->
            foldl constrained s ls' = s).
  { induction ls' as [|L ls' IH]; intros s H; simpl; [reflexivity|].
    rewrite (H L) by (apply elem_of_cons; by left).
    apply IH. intros L' HL'. apply H, elem_of_cons. by right. }
  intros s. apply Hfix. clear Hfix. revert s.
  induction ls as [|L ls IH]; intros s L' HL'.
  - by apply elem_of_nil in HL'.
  - simpl. apply elem_of_cons in HL' as [->|HL'].
    + apply foldl_constrained_settled, constrained_idem.
    + apply IH, HL'.
Qed.

Lemma foldl_constrained_graph ls : forall s,
  nodes (foldl constrained s ls) = nodes s /\
  edges (foldl constrained s ls) = edges s /\
  (forall L, L ∈ unique_name s -> L ∈ unique_name (foldl constrained s ls)) /\
  (forall L, L ∈ ls -> names_differ L (nodes s) = true ->
             L ∈ unique_name (foldl constrained s ls)).
Proof.
  induction ls as [|L ls IH]; intros s; simpl.
  - repeat split; auto. intros L HL. by apply elem_of_nil in HL.
  - destruct (constrained_graph s L) as (Hn & He & Hu & Hd).
    destruct (IH (constrained s L)) as (Hn' & He' & Hu' & Hd').
    rewrite Hn', He', Hn, He. repeat split; auto.
    intros L' HL' Hdiff. apply elem_of_cons in HL' as [->|HL'].
    + apply Hu', Hd, Hdiff.
    + apply Hd'; [exact HL'|]. rewrite Hn. exact Hdiff.
Qed.

(** X8. [create_constraints] never raises, whatever the store: a refused
    constraint is caught.  It leaves the nodes and relationships alone,
    keeps the constraints that were declared, declares every label whose
    nodes have different names, and changes nothing when it is run again. *)
Theorem create_constraints_harmless (s : store) :
  exists s',
    create_constraints s = Returned s' /\
    nodes s' = nodes s /\ edges s' = edges s /\
    (forall L, L ∈ unique_name s -> L ∈ unique_name s') /\
    (forall L, names_differ L (nodes s) = true -> L ∈ unique_name s') /\
    create_constraints s' = Returned s'.
Proof.
  exists (foldl constrained s constraints).
  unfold create_constraints. rewrite !create_constraints_foldl.
  destruct (foldl_constrained_graph constraints s) as (Hn & He & Hu & Hd).
  split; [reflexivity|]. split; [exact Hn|]. split; [exact He|].
  split; [exact Hu|]. split.
  - intros L. apply Hd. destruct L; by_listing.
  - f_equal. apply foldl_constrained_idem.
Qed.

(** *** What a record leaves in the store *)


Lemma linked_adds PN PE s s' t R L name :
  adds PN PE s s' -> linked s t R L name -> linked s' t R L name.
Proof.
  intros Hadds (x & Hx & Hl & Hn & He). exists x.
  split; [eapply adds_node_in; eassumption|]. split; [exact Hl|].
  split; [exact Hn|]. eapply adds_edge_in; eassumption.
Qed.

Lemma for_each_merge_links L R temple_name t (names : list string) name :
  name ∈ names -> named Temple temple_name t = true ->
  forall s, t ∈ nodes s ->
    linked (final (for_each names
                     (fun x => merge_related L R (JStr x) temple_name) s))
           t R L name.
Proof.
  intros Hin Hnamed. induction names as [|x names IH]; intros s Ht; simpl.
  - by apply elem_of_nil in Hin.
  - rewrite (and_then_returned _ _ s _ (returns_merge_related L R _ _ s)).
    set (s1 := final (merge_related L R (JStr x) temple_name s)).
    assert (Ht1 : t ∈ nodes s1).
    { eapply adds_node_in; [apply merge_related_adds | exact Ht]. }
    apply elem_of_cons in Hin as [->|Hin]; [|apply IH; assumption].
    destruct (merge_related_links L R (JStr x) temple_name s t
                (String.eqb_refl x) Ht Hnamed) as (Hm & Hmn & He & _).
    fold s1 in Hm, He. apply named_string in Hmn as [Hl Hn].
    eapply linked_adds; [apply merge_loop_grows|].
    exists (merged L (JStr x) s). repeat split; assumption.
Qed.

Lemma load_temple_linked (self : methods) (s : store)
    (items : list (string * json)) (nm text : string) :
  field "name" items = JStr nm ->
  clashes s (JStr nm) = false ->
  all_text (JDict items) = Some text ->
  let s' := final (load_temple self (JDict items) s) in
  let t := created_temple s items in
  t ∈ nodes s' /\
  (forall st, field "state" items = JStr st -> st <> EmptyString ->
              linked s' t LOCATED_IN State st) /\
  (forall name, name ∈ extract_deities self text ->
                linked s' t DEDICATED_TO Deity name) /\
  (forall name, name ∈ extract_scriptures self text ->
                linked s' t MENTIONED_IN Scripture name) /\
  (forall name, name ∈ extract_architectural_style self text ->
                linked s' t HAS_STYLE ArchitecturalStyle name) /\
  (forall name, name ∈ extract_festivals self text ->
                linked s' t CELEBRATES Festival name).
Proof.
  intros Hname Hclash Htext s' t.
  assert (Hcreate : create_temple_node (JDict items) s = Returned (with_node t s)).
  { rewrite create_temple_node_dict, Hname, Hclash. reflexivity. }
  assert (Htnamed : named Temple (JStr nm) t = true).
  { apply named_string. split; [reflexivity|].
    unfold t, prop. simpl. rewrite Hname. reflexivity. }
  set (region := if truthy (field "state" items)
                 then merge_related State LOCATED_IN (field "state" items)
                                    (JStr nm)
                 else skip).
  assert (Hregion : returns region).
  { unfold region. destruct (truthy _);
      [apply returns_merge_related | apply returns_skip]. }
  set (s2 := final (region (with_node t s))).
  assert (Ht2 : t ∈ nodes s2).
  { eapply (adds_node_in (fun _ => True) (fun _ => True)).
    - unfold s2, region. destruct (truthy _); [|apply adds_refl].
      eapply adds_weaken; [| |apply merge_related_adds]; auto.
    - apply elem_of_app. right. apply list_elem_of_singleton. reflexivity. }
  assert (Hs' : s' = final (extraction_loops self text (JStr nm) s2)).
  { unfold s', load_temple. rewrite (and_then_returned _ _ _ _ Hcreate).
    rewrite (create_relationships_dict self items text Htext), Hname.
    fold region. rewrite (and_then_returned _ _ _ _ (Hregion _)). reflexivity. }
  assert (Hloops : adds (fun _ => True) (fun _ => True) s2 s').
  { rewrite Hs'. eapply adds_weaken; [| |apply extraction_loops_adds]; auto. }
  split; [eapply adds_node_in; eassumption|].
  split.
  { intros st Hstate Hst. eapply linked_adds; [exact Hloops|].
    unfold s2, region. rewrite Hstate.
    replace (truthy (JStr st)) with true
      by (destruct st; [congruence | reflexivity]).
    destruct (merge_related_links State LOCATED_IN (JStr st) (JStr nm)
                (with_node t s) t (String.eqb_refl st)) as (Hm & Hmn & He & _);
      [apply elem_of_app; right; apply list_elem_of_singleton; reflexivity
      |exact Htnamed|].
    apply named_string in Hmn as [Hl Hn].
    exists (merged State (JStr st) (with_node t s)). repeat split; assumption. }
  clear Hloops. rewrite Hs'. unfold extraction_loops.
  pose proof (fun L R names => returns_for_each names
                (fun x : string => merge_related L R (JStr x) (JStr nm))
                (fun x => returns_merge_related L R (JStr x) (JStr nm))) as Hfor.
  assert (Hgrow : forall L R names s0,
            adds (fun _ => True) (fun _ => True) s0
              (final (for_each names
                 (fun x : string => merge_related L R (JStr x) (JStr nm)) s0)))
    by (intros; apply merge_loop_grows).
  split; [|split; [|split]]; intros x Hx.
  - rewrite (and_then_returned _ _ _ _ (Hfor _ _ _ s2)).
    eapply (linked_adds (fun _ => True) (fun _ => True));
      [|apply for_each_merge_links; eassumption].
    repeat (apply and_then_adds; [|intros ?]); apply merge_loop_grows.
  - rewrite (and_then_returned _ _ _ _ (Hfor _ _ _ s2)).
    set (s3 := final (for_each (extract_deities self text) _ s2)).
    assert (Ht3 : t ∈ nodes s3) by (eapply adds_node_in; [apply Hgrow|exact Ht2]).
    rewrite (and_then_returned _ _ _ _ (Hfor _ _ _ s3)).
    eapply (linked_adds (fun _ => True) (fun _ => True));
      [|apply for_each_merge_links; eassumption].
    repeat (apply and_then_adds; [|intros ?]); apply merge_loop_grows.
  - rewrite (and_then_returned _ _ _ _ (Hfor _ _ _ s2)).
    set (s3 := final (for_each (extract_deities self text) _ s2)).
    assert (Ht3 : t ∈ nodes s3) by (eapply adds_node_in; [apply Hgrow|exact Ht2]).
    rewrite (and_then_returned _ _ _ _ (Hfor _ _ _ s3)).
    set (s4 := final (for_each (extract_scriptures self text) _ s3)).
    assert (Ht4 : t ∈ nodes s4) by (eapply adds_node_in; [apply Hgrow|exact Ht3]).
    rewrite (and_then_returned _ _ _ _ (Hfor _ _ _ s4)).
    eapply (linked_adds (fun _ => True) (fun _ => True));
      [apply merge_loop_grows | apply for_each_merge_links; eassumption].
  - rewrite (and_then_returned _ _ _ _ (Hfor _ _ _ s2)).
    set (s3 := final (for_each (extract_deities self text) _ s2)).
    assert (Ht3 : t ∈ nodes s3) by (eapply adds_node_in; [apply Hgrow|exact Ht2]).
    rewrite (and_then_returned _ _ _ _ (Hfor _ _ _ s3)).
    set (s4 := final (for_each (extract_scriptures self text) _ s3)).
    assert (Ht4 : t ∈ nodes s4) by (eapply adds_node_in; [apply Hgrow|exact Ht3]).
    rewrite (and_then_returned _ _ _ _ (Hfor _ _ _ s4)).
    set (s5 := final (for_each (extract_architectural_style self text) _ s4)).
    assert (Ht5 : t ∈ nodes s5) by (eapply adds_node_in; [apply Hgrow|exact Ht4]).
    apply for_each_merge_links; assumption.
Qed.

(** X12. When a record with a string name and string text fields is loaded
    into a store that accepts it, every name each extraction method returns
    for its text has afterwards a node of the matching label, and the new
    Temple node has the matching relationship to that node. *)
Theorem extracted_entities_linked (self : methods) (s : store)
    (items : list (string * json)) (nm text : string) :
  field "name" items = JStr nm ->
  clashes s (JStr nm) = false ->
  all_text (JDict items) = Some text ->
  let s' := final (load_temple self (JDict items) s) in
  let t := created_temple s items in
  (forall name, name ∈ extract_deities self text ->
                linked s' t DEDICATED_TO Deity name) /\
  (forall name, name ∈ extract_scriptures self text ->
                linked s' t MENTIONED_IN Scripture name) /\
  (forall name, name ∈ extract_architectural_style self text ->
                linked s' t HAS_STYLE ArchitecturalStyle name) /\
  (forall name, name ∈ extract_festivals self text ->
                linked s' t CELEBRATES Festival name).
Proof.
  intros Hname Hclash Htext s' t.
  destruct (load_temple_linked self s items nm text Hname Hclash Htext)
    as (_ & _ & Hd & Hs & Ha & Hf).
  repeat split; assumption.
Qed.

Lemma extracted_entities_linked_witness :
  let items := [("name", JStr "Srirangam"); ("history", JStr "old");
                ("story", JStr "Vishnu rests here during Navaratri")]%string in
  let s' := final (load_temple self (JDict items) empty_store) in
  field "name" items = JStr "Srirangam" /\
  linked s' (created_temple empty_store items) DEDICATED_TO Deity "Vishnu" /\
  linked s' (created_temple empty_store items) CELEBRATES Festival "Navaratri".
Proof.
  intros items s'. split; [reflexivity|].
  destruct (extracted_entities_linked self empty_store items "Srirangam"
              " Vishnu rests here during Navaratri  " eq_refl eq_refl eq_refl)
    as (Hd & _ & _ & Hf).
  split; [apply Hd | apply Hf]; by_listing.
Defined.

Lemma no_text_all_text items : no_text items -> all_text (JDict items) = Some "   "%string.
Proof.
  unfold no_text, text_fields. intros H.
  apply Forall_cons in H as [H1 H]. apply Forall_cons in H as [H2 H].
  apply Forall_cons in H as [H3 H]. apply Forall_cons in H as [H4 _].
  rewrite all_text_fields, H1, H2, H3, H4. reflexivity.
Qed.

(** X13. A record none of whose four text fields holds text adds nothing
    but its Temple node, a State node and a LOCATED_IN relationship: the
    nodes of the other labels and the relationships of the other types are
    afterwards those the store had.  What the visiting guide says is not
    looked at. *)
Theorem no_text_no_entities (s : store) (items : list (string * json)) :
  no_text items ->
  let s' := final (load_temple self (JDict items) s) in
  (forall L, L <> Temple -> L <> State -> labelled L s' = labelled L s) /\
  (forall R, R <> LOCATED_IN -> typed R s' = typed R s).
Proof.
  intros Hno s'. pose proof (no_text_all_text items Hno) as Htext.
  assert (Hadds : adds (fun n => node_label n = Temple \/ node_label n = State)
                       (fun e => edge_type e = LOCATED_IN) s s').
  { unfold s', load_temple. apply and_then_adds.
    - eapply adds_weaken; [| |apply create_temple_node_adds].
      + intros n Hn. by left.
      + intros e [].
    - intros s1. rewrite (create_relationships_dict self items _ Htext).
      apply and_then_adds.
      + destruct (truthy _); [|apply adds_refl].
        eapply adds_weaken; [| |apply merge_related_adds].
        * intros n Hn. by right.
        * auto.
      + intros s2. apply adds_refl. }
  split.
  - intros L HT HS. eapply adds_labelled; [|exact Hadds].
    intros n [Hn|Hn]; congruence.
  - intros R HR. eapply adds_typed; [|exact Hadds].
    intros e He. congruence.
Qed.

Lemma no_text_no_entities_witness :
  let items := [("name", JStr "Shore Temple"); ("state", JStr "Tamil Nadu");
                ("visiting_guide", JStr "Lord Shiva, Navaratri")]%string in
  no_text items /\
  labelled Deity (final (load_temple self (JDict items) empty_store)) = [] /\
  typed CELEBRATES (final (load_temple self (JDict items) empty_store)) = [].
Proof.
  intros items.
  assert (Hno : no_text items) by (repeat constructor).
  split; [exact Hno|].
  destruct (no_text_no_entities empty_store items Hno) as [Hl Ht].
  split; [apply Hl | apply Ht]; discriminate.
Defined.

(** *** Failures of a run *)

Lemma replace_none_not_dict data :
  (forall items, data <> JDict items) ->
  forall items, replace_none data <> JDict items.
Proof. destruct data; intros H items'; try discriminate. by destruct (H items). Qed.

(** X14. A document that is not a mapping still costs the graph: the store
    is cleared and the constraints declared before the regions of the
    document are gone through, so the run ends with no node and no
    relationship. *)
Theorem malformed_document_clears (self : methods) (data : json) (s : store) :
  (forall items, data <> JDict items) ->
  final (load_temple_data self data s) = Store [] [] (declare (unique_name s)).
Proof.
  intros H. rewrite load_temple_data_cleared. cbn [final].
  pose proof (replace_none_not_dict data H) as H'.
  destruct (replace_none data); try reflexivity. by destruct (H' items).
Qed.

Lemma malformed_document_clears_witness :
  let s := final (load_temple_data self odisha_document empty_store) in
  (forall items, JList [odisha_document] <> JDict items) /\
  nodes (final (load_temple_data self (JList [odisha_document]) s)) = [] /\
  nodes s <> [].
Proof.
  intros s.
  assert (H : forall items, JList [odisha_document] <> JDict items)
    by discriminate.
  split; [exact H|].
  rewrite (malformed_document_clears self _ s H). split; [reflexivity|].
  vm_compute. discriminate.
Defined.


(** *** [replace_none] once more *)

Lemma replace_none_clean doc : has_null doc = false -> replace_none doc = doc.
Proof.
  induction doc as [| | | | |elems IH|items IH] using json_deep_ind;
    simpl; intros H; try reflexivity; try discriminate; f_equal.
  - induction IH as [|x l Hx _ IHl]; simpl in *; [reflexivity|].
    apply orb_false_iff in H as [H1 H2]. f_equal; auto.
  - induction IH as [|[k v] l Hx _ IHl]; simpl in *; [reflexivity|].
    apply orb_false_iff in H as [H1 H2]. f_equal; [f_equal|]; auto.
Qed.

(** X7. [replace_none] leaves a document as it is exactly when the document
    holds no null, and applying it a second time changes nothing. *)
Theorem replace_none_fixed (doc : json) :
  (replace_none doc = doc <-> has_null doc = false) /\
  replace_none (replace_none doc) = replace_none doc.
Proof.
  split; [split|].
  - intros H. rewrite <- H. apply JsonFacts.replace_none_no_null.
  - apply replace_none_clean.
  - apply replace_none_clean, JsonFacts.replace_none_no_null.
Qed.

(** *** The sample queries *)


Lemma pattern_rows_in R L s t x :
  (t, x) ∈ pattern_rows R L s <->
  t ∈ nodes s /\ x ∈ nodes s /\ node_label t = Temple /\ node_label x = L /\
  exists e, e ∈ edges s /\ edge_type e = R /\
            edge_from e = node_id t /\ edge_to e = node_id x.
Proof.
  unfold pattern_rows. rewrite list_elem_of_In, in_flat_map. split.
  - intros (e & He & H). apply in_flat_map in H as (t' & Ht & H).
    apply in_flat_map in H as (x' & Hx & H).
    destruct (_ && _) eqn:Hc in H; [|destruct H].
    destruct H as [H|[]]. injection H as -> ->.
    rewrite !andb_true_iff, !bool_decide_eq_true, !Nat.eqb_eq in Hc.
    destruct Hc as [[[[HR Hf] HT] Ht'] HL].
    rewrite !list_elem_of_In. repeat split; try assumption.
    exists e. rewrite list_elem_of_In. repeat split; auto.
  - rewrite !list_elem_of_In.
    intros (Ht & Hx & HT & HL & e & He & HR & Hf & Hto).
    apply list_elem_of_In in He.
    exists e. split; [exact He|]. apply in_flat_map. exists t. split; [exact Ht|].
    apply in_flat_map. exists x. split; [exact Hx|].
    rewrite (bool_decide_eq_true_2 _ HR), (bool_decide_eq_true_2 _ HT),
      (bool_decide_eq_true_2 _ HL), Hf, Hto, !Nat.eqb_refl. simpl. by left.
Qed.

Lemma linked_row s t R L name :
  t ∈ nodes s -> node_label t = Temple -> linked s t R L name ->
  exists x, (t, x) ∈ pattern_rows R L s /\ prop "name" x = Some (JStr name) /\
            node_label x = L.
Proof.
  intros Ht HT (x & Hx & HL & Hn & He). exists x.
  split; [|split; assumption]. apply pattern_rows_in.
  repeat split; try assumption. exists (Edge (node_id t) R (node_id x)).
  repeat split. exact He.
Qed.

Lemma row_listed {B : Type} (rows : list (node * node))
    (keep : node * node -> bool) (f : node * node -> B) r :
  r ∈ rows -> keep r = true -> f r ∈ map f (List.filter keep rows).
Proof.
  intros Hr Hk. apply list_elem_of_fmap. exists r. split; [reflexivity|].
  apply filter_elem_of. split; assumption.
Qed.

(** X17. The sample queries list a temple that was just loaded: with each
    extracted deity whose name contains Vishnu or Venkateswara, under
    Dravidian architecture when that style was extracted, with each
    extracted scripture whose name contains Purana, and under Andhra Pradesh
    when that is its state. *)
Theorem loaded_temple_listed (self : methods) (s : store)
    (items : list (string * json)) (nm text : string) :
  field "name" items = JStr nm ->
  clashes s (JStr nm) = false ->
  all_text (JDict items) = Some text ->
  let s' := final (load_temple self (JDict items) s) in
  (forall name, name ∈ extract_deities self text ->
     contains "Vishnu" name || contains "Venkateswara" name = true ->
     (JStr nm, JStr name) ∈ temples_dedicated_to_vishnu s') /\
  ("Dravidian"%string ∈ extract_architectural_style self text ->
     JStr nm ∈ temples_with_dravidian_architecture s') /\
  (forall name, name ∈ extract_scriptures self text ->
     contains "Purana" name = true ->
     (JStr nm, JStr name) ∈ temples_mentioned_in_puranas s') /\
  (field "state" items = JStr "Andhra Pradesh" ->
     JStr nm ∈ temples_in_andhra_pradesh s').
Proof.
  intros Hname Hclash Htext s'.
  destruct (load_temple_linked self s items nm text Hname Hclash Htext)
    as (Ht & Hr & Hd & Hs & Ha & _).
  set (t := created_temple s items) in *.
  assert (Htn : name_of t = JStr nm).
  { unfold name_of, t, prop. simpl. rewrite Hname. reflexivity. }
  assert (Hrow : forall R L name,
            linked s' t R L name ->
            exists x, (t, x) ∈ pattern_rows R L s' /\
                      prop "name" x = Some (JStr name) /\ node_label x = L).
  { intros R L name. apply linked_row; [exact Ht | reflexivity]. }
  split; [|split; [|split]].
  - intros name Hin Hc. destruct (Hrow _ _ _ (Hd name Hin)) as (x & Hx & Hn & _).
    unfold temples_dedicated_to_vishnu.
    assert (E : (JStr nm, JStr name) = (name_of t, name_of x))
      by (rewrite Htn; unfold name_of; rewrite Hn; reflexivity).
    rewrite E.
    apply (row_listed _ _ (fun r => (name_of r.1, name_of r.2)) (t, x));
      [exact Hx|].
    unfold name_contains. simpl. rewrite Hn. exact Hc.
  - intros Hin. destruct (Hrow _ _ _ (Ha _ Hin)) as (x & Hx & Hn & Hl).
    unfold temples_with_dravidian_architecture. rewrite <- Htn.
    apply (row_listed _ _ (fun r => name_of r.1) (t, x)); [exact Hx|].
    apply named_string. split; assumption.
  - intros name Hin Hc. destruct (Hrow _ _ _ (Hs name Hin)) as (x & Hx & Hn & _).
    unfold temples_mentioned_in_puranas.
    assert (E : (JStr nm, JStr name) = (name_of t, name_of x))
      by (rewrite Htn; unfold name_of; rewrite Hn; reflexivity).
    rewrite E.
    apply (row_listed _ _ (fun r => (name_of r.1, name_of r.2)) (t, x));
      [exact Hx|].
    unfold name_contains. simpl. rewrite Hn. exact Hc.
  - intros Hstate. destruct (Hrow _ _ _ (Hr _ Hstate ltac:(discriminate)))
      as (x & Hx & Hn & Hl).
    unfold temples_in_andhra_pradesh. rewrite <- Htn.
    apply (row_listed _ _ (fun r => name_of r.1) (t, x)); [exact Hx|].
    apply named_string. split; assumption.
Qed.

Lemma loaded_temple_listed_witness :
  let items := [("name", JStr "Tirumala Temple");
                ("state", JStr "Andhra Pradesh");
                ("info", JStr "dedicated to Lord Venkateswara");
                ("architecture", JStr "Dravidian gopurams");
                ("mention_in_scripture", JStr "praised in the Varaha Purana")
               ]%string in
  let s' := final (load_temple TempleGraphDB.self (JDict items) empty_store) in
  field "name" items = JStr "Tirumala Temple" /\
  (JStr "Tirumala Temple", JStr "Venkateswara") ∈ temples_dedicated_to_vishnu s' /\
  JStr "Tirumala Temple" ∈ temples_with_dravidian_architecture s' /\
  (JStr "Tirumala Temple", JStr "Varaha Purana") ∈ temples_mentioned_in_puranas s' /\
  JStr "Tirumala Temple" ∈ temples_in_andhra_pradesh s'.
Proof.
  intros items s'. split; [reflexivity|].
  destruct (loaded_temple_listed TempleGraphDB.self empty_store items
              "Tirumala Temple"
              "dedicated to Lord Venkateswara  Dravidian gopurams praised in the Varaha Purana"
              eq_refl eq_refl eq_refl) as (H1 & H2 & H3 & H4).
  split; [apply H1; [by_listing | reflexivity]|].
  split; [apply H2; by_listing|].
  split; [apply H3; [by_listing | reflexivity]|].
  apply H4. reflexivity.
Defined.

(** *** Running [create_relationships] again *)

Lemma for_each_map {B C : Type} (f : B -> C) (xs : list B) (body : C -> action) s :
  for_each (map f xs) body s = for_each xs (fun x => body (f x)) s.
Proof.
  revert s. induction xs as [|x xs IH]; intros s; simpl; [reflexivity|].
  unfold and_then. destruct (body (f x) s); [apply IH | reflexivity].
Qed.

Lemma for_each_append {B : Type} (xs ys : list B) (body : B -> action) s :
  for_each (xs ++ ys) body s = (for_each xs body ;; for_each ys body) s.
Proof.
  revert s. induction xs as [|x xs IH]; intros s; simpl; [reflexivity|].
  unfold and_then in *. destruct (body x s) as [s1|s1]; [|reflexivity].
  apply IH.
Qed.

Lemma and_then_ext (a a' b b' : action) s :
  a s = a' s -> (forall s1, b s1 = b' s1) -> (a ;; b) s = (a' ;; b') s.
Proof. intros Ha Hb. unfold and_then. rewrite Ha. destruct (a' s); auto. Qed.

(** [create_relationships] is its statements run one after the other. *)
Lemma create_relationships_steps self items st text :
  field "state" items = JStr st ->
  all_text (JDict items) = Some text ->
  forall s,
    create_relationships self (JDict items) s =
    for_each (merge_steps self st text) (run_step (field "name" items)) s.
Proof.
  intros Hstate Htext s.
  rewrite (create_relationships_dict self items text Htext), Hstate.
  unfold merge_steps, extraction_loops.
  rewrite for_each_append. apply and_then_ext.
  { destruct st; simpl; [reflexivity|].
    unfold and_then, run_step. simpl.
    destruct (merge_related _ _ _ _ s); reflexivity. }
  intros s1. rewrite for_each_append. apply and_then_ext;
    [rewrite for_each_map; reflexivity|].
  intros s2. rewrite for_each_append. apply and_then_ext;
    [rewrite for_each_map; reflexivity|].
  intros s3. rewrite for_each_append. apply and_then_ext;
    [rewrite for_each_map; reflexivity|].
  intros s4. rewrite for_each_map. reflexivity.
Qed.

Lemma merge_all_edges_present R ts xs : forall s,
  (forall t x, t ∈ ts -> x ∈ xs -> Edge t R x ∈ edges s) ->
  foldl (fun s2 x => foldl (merge_edge R x) s2 ts) s xs = s.
Proof.
  assert (Hinner : forall x s, (forall t, t ∈ ts -> Edge t R x ∈ edges s) ->
                               foldl (merge_edge R x) s ts = s).
  { intros x. induction ts as [|t ts IH]; intros s H; simpl; [reflexivity|].
    unfold merge_edge at 2.
    rewrite bool_decide_eq_true_2 by (apply H, elem_of_cons; by left).
    apply IH. intros t' Ht'. apply H, elem_of_cons. by right. }
  induction xs as [|x xs IH]; intros s H; simpl; [reflexivity|].
  rewrite Hinner by (intros t Ht; apply H; [exact Ht | apply elem_of_cons; by left]).
  apply IH. intros t x' Ht Hx'. apply H; [exact Ht | apply elem_of_cons; by right].
Qed.

Lemma settled_returns temple_name m s :
  settled temple_name m s -> run_step temple_name m s = Returned s.
Proof.
  destruct m as [[L R] x]. unfold settled, run_step. cbn [fst snd].
  intros [Hne Hall]. unfold merge_related, merge_node.
  destruct (List.filter (named L (JStr x)) (nodes s)) as [|r found] eqn:Hf;
    [congruence|].
  f_equal. apply merge_all_edges_present. intros t n Ht Hn.
  apply list_elem_of_fmap in Ht as (tn & -> & Htn).
  apply list_elem_of_fmap in Hn as (xn & -> & Hxn).
  apply Hall; assumption.
Qed.

Lemma merge_all_edges_nodes R ts xs s :
  nodes (foldl (fun s2 x => foldl (merge_edge R x) s2 ts) s xs) = nodes s.
Proof.
  destruct (merge_all_edges_adds R ts xs s) as (ns & es & Hn & _ & _ & Hns & _).
  destruct ns as [|n ns]; [rewrite Hn; apply app_nil_r|].
  apply Forall_cons in Hns as [[] _].
Qed.

(** The nodes after a [MERGE]: one more only when none matched. *)
Lemma merge_node_nodes L x s :
  nodes (merge_node L (JStr x) s).1 =
  nodes s ++ (if existsb (named L (JStr x)) (nodes s) then []
              else [Node (fresh_id s) L [("name"%string, JStr x)]]) /\
  (merge_node L (JStr x) s).2 =
  map node_id (List.filter (named L (JStr x)) (nodes (merge_node L (JStr x) s).1)).
Proof.
  unfold merge_node.
  destruct (List.filter (named L (JStr x)) (nodes s)) as [|r found] eqn:Hf;
    cbn [fst snd nodes].
  - rewrite (proj1 (filter_nil_existsb _ _) Hf). split; [reflexivity|].
    rewrite List.filter_app, Hf. cbn [List.filter app].
    replace (named L (JStr x) (Node (fresh_id s) L [("name"%string, JStr x)]))
      with true; [reflexivity|].
    symmetry. apply named_string. split; reflexivity.
  - destruct (existsb (named L (JStr x)) (nodes s)) eqn:He.
    + rewrite app_nil_r, Hf. split; reflexivity.
    + apply filter_nil_existsb in He. congruence.
Qed.

Lemma run_step_nodes temple_name m s :
  nodes (final (run_step temple_name m s)) =
  nodes s ++ (if existsb (named m.1.1 (JStr m.2)) (nodes s) then []
              else [Node (fresh_id s) m.1.1 [("name"%string, JStr m.2)]]).
Proof.
  destruct m as [[L R] x]. unfold run_step, merge_related. cbn [fst snd].
  destruct (merge_node_nodes L x s) as [Hn _].
  destruct (merge_node L (JStr x) s) as [s1 xs]. cbn [fst snd final] in *.
  rewrite merge_all_edges_nodes. exact Hn.
Qed.

Lemma settled_after temple_name m s :
  settled temple_name m (final (run_step temple_name m s)).
Proof.
  destruct m as [[L R] x]. unfold settled, run_step, merge_related.
  cbn [fst snd].
  destruct (merge_node_nodes L x s) as [_ Hxs].
  destruct (merge_node_merged L (JStr x) s (String.eqb_refl x))
    as (Hm & Hmn & _).
  destruct (merge_node L (JStr x) s) as [s1 xs]. cbn [fst snd final] in *.
  rewrite merge_all_edges_nodes. split.
  - intros Hnil.
    assert (Hin : merged L (JStr x) s ∈ List.filter (named L (JStr x)) (nodes s1))
      by (apply filter_elem_of; split; assumption).
    rewrite Hnil in Hin. by apply elem_of_nil in Hin.
  - intros t n Ht Hn. apply merge_all_edges_in.
    + apply list_elem_of_fmap. eauto.
    + rewrite Hxs. apply list_elem_of_fmap. eauto.
Qed.

Lemma settled_stable temple_name temple_name' m m' s :
  m'.1.1 <> Temple ->
  settled temple_name m s ->
  settled temple_name m (final (run_step temple_name' m' s)).
Proof.
  intros HT [Hne Hall]. unfold settled.
  assert (Hadds : adds (fun _ => True) (fun _ => True) s
                    (final (run_step temple_name' m' s))).
  { unfold run_step. eapply adds_weaken; [| |apply merge_related_adds]; auto. }
  rewrite run_step_nodes.
  assert (Hsame : forall L name,
            (L = Temple \/ (L = m.1.1 /\ name = JStr m.2)) ->
            List.filter (named L name)
              (nodes s ++
               (if existsb (named m'.1.1 (JStr m'.2)) (nodes s) then []
                else [Node (fresh_id s) m'.1.1 [("name"%string, JStr m'.2)]]))
            = List.filter (named L name) (nodes s)).
  { intros L name HL. rewrite List.filter_app.
    destruct (existsb (named m'.1.1 (JStr m'.2)) (nodes s)) eqn:He;
      [apply app_nil_r|].
    cbn [List.filter].
    destruct (named L name (Node _ _ _)) eqn:Hnew; [|apply app_nil_r].
    exfalso. unfold named, prop in Hnew. simpl in Hnew.
    apply andb_true_iff in Hnew as [Hl Hv]. apply bool_decide_eq_true in Hl.
    destruct HL as [->|[-> ->]]; [congruence|].
    simpl in Hv. apply String.eqb_eq in Hv.
    apply filter_nil_existsb in He. rewrite Hl, Hv in He. congruence. }
  rewrite !Hsame by auto. split; [exact Hne|].
  intros t x Ht Hx. eapply adds_edge_in; [exact Hadds|]. apply Hall; assumption.
Qed.

Lemma run_step_returns temple_name m : returns (run_step temple_name m).
Proof. apply returns_merge_related. Qed.

Lemma settled_for_each temple_name m (ms : list merge_step) :
  Forall (fun m' => m'.1.1 <> Temple) ms ->
  forall s, settled temple_name m s ->
            settled temple_name m (final (for_each ms (run_step temple_name) s)).
Proof.
  induction 1 as [|m' ms Hm' _ IH]; intros s Hs; simpl; [exact Hs|].
  rewrite (and_then_returned _ _ s _ (run_step_returns temple_name m' s)).
  apply IH, settled_stable; assumption.
Qed.

Lemma all_settled temple_name (ms : list merge_step) :
  Forall (fun m => m.1.1 <> Temple) ms ->
  forall s, Forall (fun m => settled temple_name m
                               (final (for_each ms (run_step temple_name) s))) ms.
Proof.
  induction 1 as [|m ms Hm Hms IH]; intros s; [constructor|].
  simpl. rewrite (and_then_returned _ _ s _ (run_step_returns temple_name m s)).
  constructor; [|apply IH].
  apply settled_for_each; [exact Hms | apply settled_after].
Qed.

Lemma settled_all_return temple_name (ms : list merge_step) s :
  Forall (fun m => settled temple_name m s) ms ->
  for_each ms (run_step temple_name) s = Returned s.
Proof.
  induction 1 as [|m ms Hm _ IH]; simpl; [reflexivity|].
  unfold and_then. rewrite (settled_returns _ _ _ Hm). exact IH.
Qed.

Lemma merge_steps_not_temple self st text :
  Forall (fun m : merge_step => m.1.1 <> Temple) (merge_steps self st text).
Proof.
  unfold merge_steps. repeat apply Forall_app_2.
  - destruct (is_empty st); repeat constructor. discriminate.
  - apply Forall_fmap, Forall_forall. intros x _. discriminate.
  - apply Forall_fmap, Forall_forall. intros x _. discriminate.
  - apply Forall_fmap, Forall_forall. intros x _. discriminate.
  - apply Forall_fmap, Forall_forall. intros x _. discriminate.
Qed.

(** X18. Running [create_relationships] a second time for the same record
    changes nothing: every node and relationship it merges is already there. *)
Theorem create_relationships_idempotent (self : methods) (s : store)
    (items : list (string * json)) (st : string) :
  field "state" items = JStr st ->
  let s1 := final (create_relationships self (JDict items) s) in
  final (create_relationships self (JDict items) s1) = s1 /\
  (forall text, all_text (JDict items) = Some text ->
                create_relationships self (JDict items) s1 = Returned s1).
Proof.
  intros Hstate s1.
  destruct (all_text (JDict items)) as [text|] eqn:Htext.
  - assert (H : create_relationships self (JDict items) s1 = Returned s1).
    { unfold s1.
      rewrite !(create_relationships_steps self items st text Hstate Htext).
      apply settled_all_return, all_settled, merge_steps_not_temple. }
    split; [rewrite H; reflexivity | intros _ _; exact H].
  - split; [|discriminate].
    rewrite create_relationships_raises by exact Htext. reflexivity.
Qed.

Lemma create_relationships_idempotent_witness :
  let items := [("name", JStr "Meenakshi Temple"); ("state", JStr "Tamil Nadu");
                ("info", JStr "Goddess Meenakshi, Chola halls, Navaratri")
               ]%string in
  let s := with_node (created_temple empty_store items) empty_store in
  let s1 := final (create_relationships TempleGraphDB.self (JDict items) s) in
  field "state" items = JStr "Tamil Nadu" /\
  length (edges s1) = 4 /\
  create_relationships TempleGraphDB.self (JDict items) s1 = Returned s1.
Proof.
  intros items s s1. split; [reflexivity|]. split; [vm_compute; reflexivity|].
  exact (proj2 (create_relationships_idempotent TempleGraphDB.self s items
                  "Tamil Nadu" eq_refl) _ eq_refl).
Defined.

(** *** What [create_temple_node] stores *)

(** X19. The Temple node of an accepted record is in the store after the
    record is loaded and carries the seven declared properties, each read
    from its field of the record ([scripture_mentions] from
    [mention_in_scripture]) with the empty string for a missing one; no other
    field of the record is stored. *)
Theorem temple_fields_stored (self : methods) (s : store)
    (items : list (string * json)) :
  clashes s (field "name" items) = false ->
  let s' := final (load_temple self (JDict items) s) in
  let t := created_temple s items in
  t ∈ nodes s' /\ node_label t = Temple /\
  Forall (fun kk => prop kk.1 t = Some (field kk.2 items)) temple_keys /\
  (forall key, key ∉ map fst temple_keys -> prop key t = None).
Proof.
  intros Hclash s' t.
  assert (Hcreate : create_temple_node (JDict items) s = Returned (with_node t s)).
  { rewrite create_temple_node_dict, Hclash. reflexivity. }
  split; [|split; [reflexivity|split]].
  - unfold s', load_temple. rewrite (and_then_returned _ _ _ _ Hcreate).
    eapply adds_node_in; [apply create_relationships_adds|].
    apply elem_of_app. right. apply list_elem_of_singleton. reflexivity.
  - repeat constructor.
  - intros key Hkey. unfold prop, t, created_temple. cbn [node_props assoc].
    repeat match goal with
           | |- context [String.eqb key ?k] =>
               destruct (String.eqb_spec key k) as [->|_];
               [exfalso; apply Hkey; by_listing|]
           end.
    reflexivity.
Qed.

Lemma temple_fields_stored_witness :
  let items := [("name", JStr "Konark Sun Temple"); ("founded", JInt 1250);
                ("mention_in_scripture", JStr "Samba Purana")]%string in
  let t := created_temple empty_store items in
  clashes empty_store (field "name" items) = false /\
  t ∈ nodes (final (load_temple TempleGraphDB.self (JDict items) empty_store)) /\
  prop "scripture_mentions" t = Some (JStr "Samba Purana") /\
  prop "mention_in_scripture" t = None /\ prop "founded" t = None.
Proof.
  intros items t.
  destruct (temple_fields_stored TempleGraphDB.self empty_store items eq_refl)
    as (Hin & _ & Hkeys & Hnone).
  split; [reflexivity|]. split; [exact Hin|]. split; [reflexivity|].
  split; apply Hnone; intros H; apply list_elem_of_In in H; vm_compute in H;
    repeat destruct H as [H|H]; try discriminate H; exact H.
Defined.

(** *** The region keys of the document *)

Lemma for_each_values {B C : Type} (items : list (B * C)) (body : C -> action) s :
  for_each items (fun '(_, v) => body v) s = for_each (map snd items) body s.
Proof.
  revert s. induction items as [|[k v] items IH]; intros s; simpl; [reflexivity|].
  unfold and_then. destruct (body v s); [apply IH | reflexivity].
Qed.

Lemma load_states_values self items s :
  load_states self (JDict items) s =
  for_each (map snd items)
    (fun temples => match iterate temples with
                    | Some temples => for_each temples (load_temple self)
                    | None => raise
                    end) s.
Proof. unfold load_states. apply (for_each_values items). Qed.

(** X20. The region keys of the document play no part: two documents with
    the same lists of temples under different keys are loaded alike. *)
Theorem region_keys_unused (self : methods) (items items' : list (string * json))
    (s : store) :
  map snd items = map snd items' ->
  load_temple_data self (JDict items) s = load_temple_data self (JDict items') s.
Proof.
  intros Hvalues. rewrite !load_temple_data_cleared. f_equal. f_equal.
  cbn [replace_none]. rewrite !load_states_values, !map_map. cbn [snd].
  rewrite <- !(map_map snd replace_none), Hvalues. reflexivity.
Qed.

Lemma region_keys_unused_witness :
  let temple := JDict [("name", JStr "Jagannath Temple");
                       ("state", JStr "Odisha")]%string in
  map snd [("Odisha"%string, JList [temple])] =
  map snd [("Kerala"%string, JList [temple])] /\
  has_node State "Odisha"
    (final (load_temple_data TempleGraphDB.self
              (JDict [("Kerala"%string, JList [temple])]) empty_store)).
Proof.
  intros temple. split; [reflexivity|].
  rewrite <- (region_keys_unused TempleGraphDB.self
                [("Odisha"%string, JList [temple])]
                [("Kerala"%string, JList [temple])] empty_store eq_refl).
  exists (Node 1 State [("name"%string, JStr "Odisha")]).
  split; [by_listing | split; reflexivity].
Defined.

(** *** Counting under either way of reporting a refusal *)

Lemma at_most_skip c : at_most c 0 skip.
Proof. intros s. simpl. lia. Qed.

Lemma at_most_raise c : at_most c 0 raise.
Proof. intros s. simpl. lia. Qed.

Lemma at_most_and_then c w1 w2 (a b : action) :
  at_most c w1 a -> at_most c w2 b -> at_most c (w1 + w2) (a ;; b).
Proof.
  intros Ha Hb s. specialize (Ha s). unfold and_then.
  destruct (a s) as [s1|s1]; simpl in *; [|lia].
  specialize (Hb s1). lia.
Qed.

Lemma at_most_for_each {B : Type} c (w : B -> nat) (xs : list B)
    (body : B -> action) :
  (forall x, at_most c (w x) (body x)) ->
  at_most c (sum_list (map w xs)) (for_each xs body).
Proof.
  intros Hbody. induction xs as [|x xs IH]; simpl.
  - apply at_most_skip.
  - apply at_most_and_then; [apply Hbody | exact IH].
Qed.

(** An action that only adds nodes of other labels leaves the count of a
    label as it is. *)
Lemma at_most_adds L PN PE (a : action) :
  (forall n, PN n -> node_label n <> L) ->
  (forall s, adds PN PE s (final (a s))) ->
  at_most (count L) 0 a.
Proof.
  intros HPN Ha s. rewrite !count_labelled.
  rewrite (adds_labelled L PN PE s _ HPN (Ha s)). lia.
Qed.

Lemma count_with_node L n s :
  count L (with_node n s) <= count L s + 1.
Proof.
  unfold count, with_node. simpl. rewrite List.filter_app, length_app. simpl.
  destruct (bool_decide _); simpl; lia.
Qed.

Lemma create_temple_node_as_at_most r L temple :
  at_most (count L) 1 (create_temple_node_as r temple).
Proof.
  intros s. unfold create_temple_node_as.
  destruct (temple_props temple) as [props|]; [|simpl; lia].
  unfold create_node_as. destruct (_ && _).
  - destruct r; simpl; lia.
  - apply (count_with_node L (Node (fresh_id s) Temple props) s).
Qed.

Lemma merge_related_at_most L L' R name temple_name :
  at_most (count L) 1 (merge_related L' R name temple_name).
Proof.
  intros s. unfold merge_related.
  destruct (merge_node L' name s) as [s1 xs] eqn:Hm. cbn [final].
  unfold count at 1. rewrite merge_all_edges_nodes. fold (count L s1).
  assert (Hs1 : s1 = (merge_node L' name s).1) by (rewrite Hm; reflexivity).
  rewrite Hs1. unfold merge_node.
  destruct (List.filter (named L' name) (nodes s)); cbn [fst]; [|lia].
  apply (count_with_node L (Node (fresh_id s) L' [("name"%string, name)]) s).
Qed.

Lemma create_relationships_states self temple :
  at_most (count State) 1 (create_relationships self temple).
Proof.
  destruct (all_text temple) as [text|] eqn:Htext.
  - destruct temple as [| | | | | |items]; try discriminate Htext.
    rewrite (create_relationships_dict self items text Htext).
    change 1 with (1 + 0). apply at_most_and_then.
    + destruct (truthy (field "state" items)).
      * apply merge_related_at_most.
      * intros s. simpl. lia.
    + apply (at_most_adds State entity relation).
      * intros n [H _]. exact H.
      * intros s. apply extraction_loops_adds.
  - intros s. rewrite create_relationships_raises by exact Htext. simpl. lia.
Qed.

Lemma load_temple_as_temples r self temple :
  at_most (count Temple) 1 (load_temple_as r self temple).
Proof.
  unfold load_temple_as. change 1 with (1 + 0). apply at_most_and_then.
  - apply create_temple_node_as_at_most.
  - eapply at_most_adds; [|intros s; apply create_relationships_adds].
    intros n H. exact H.
Qed.

Lemma load_temple_as_states r self temple :
  at_most (count State) 1 (load_temple_as r self temple).
Proof.
  unfold load_temple_as. change 1 with (0 + 1). apply at_most_and_then.
  - apply (at_most_adds State (fun n => node_label n = Temple) (fun _ => False)).
    + intros n ->. discriminate.
    + intros s. apply create_temple_node_as_adds.
  - apply create_relationships_states.
Qed.

Lemma load_states_as_at_most r self c data :
  (forall temple, at_most c 1 (load_temple_as r self temple)) ->
  at_most c (records data) (load_states_as r self data).
Proof.
  intros Hbody. unfold load_states_as, records.
  destruct data; try apply at_most_raise.
  apply at_most_for_each. intros [state temples]. unfold region_records. simpl.
  destruct (iterate temples) as [l|]; [|apply at_most_raise].
  rewrite <- sum_list_ones. apply at_most_for_each. exact Hbody.
Qed.

Lemma load_temple_data_as_cleared r self data s :
  load_temple_data_as r self data s =
  Returned (final (load_states_as r self (replace_none data)
                                  (Store [] [] (declare (unique_name s))))).
Proof.
  unfold load_temple_data_as, try_. f_equal.
  unfold clear_database, detach_delete_all, and_then.
  rewrite create_constraints_cleared. reflexivity.
Qed.

(** A run that completes when a refusal is raised met no refusal: it is the
    same run however a refusal is reported. *)
Lemma load_temple_returned r self temple s s1 :
  load_temple self temple s = Returned s1 ->
  load_temple_as r self temple s = Returned s1.
Proof.
  unfold load_temple, load_temple_as, and_then.
  unfold create_temple_node, create_temple_node_as.
  destruct (temple_props temple) as [props|]; [|discriminate].
  unfold create_node, create_node_as.
  destruct (_ && _); [discriminate | auto].
Qed.

Lemma for_each_returned {B : Type} (xs : list B) (f g : B -> action) :
  (forall x s s1, f x s = Returned s1 -> g x s = Returned s1) ->
  forall s s1, for_each xs f s = Returned s1 -> for_each xs g s = Returned s1.
Proof.
  intros Hfg. induction xs as [|x xs IH]; intros s s1; simpl; [auto|].
  unfold and_then. destruct (f x s) as [s2|s2] eqn:Hf; [|discriminate].
  rewrite (Hfg x s s2 Hf). apply IH.
Qed.

Lemma load_states_returned r self data s s1 :
  load_states self data s = Returned s1 ->
  load_states_as r self data s = Returned s1.
Proof.
  unfold load_states, load_states_as. destruct data; try discriminate.
  apply for_each_returned. intros [state temples] s2 s3.
  destruct (iterate temples) as [l|]; [|discriminate].
  apply for_each_returned. intros temple. apply load_temple_returned.
Qed.

(** X11. However a refused [CREATE] is reported, the Temple count and the
    State count read back after [load_temple_data] are at most the number of
    temple records of the normalised document.  When the run in which a
    refusal is raised completes (no [CREATE] is refused and no record
    raises), the loaded store is the same under either report and holds
    exactly one Temple node for each record. *)
Theorem temples_counted (r : refusal) (self : methods) (data : json)
    (s : store) :
  let start := Store [] [] (declare (unique_name s)) in
  let document := replace_none data in
  let s' := final (load_temple_data_as r self data s) in
  let stats := print_statistics s' in
  Temples stats <= records document /\
  States stats <= records document /\
  (forall s1, load_states self document start = Returned s1 ->
     s' = s1 /\ Temples stats = records document).
Proof.
  intros start document s' stats.
  assert (Hs' : s' = final (load_states_as r self document start)).
  { unfold s'. rewrite load_temple_data_as_cleared. reflexivity. }
  subst stats. cbn [Temples States print_statistics]. rewrite Hs'.
  split; [|split].
  - apply (load_states_as_at_most r self (count Temple) document
             (load_temple_as_temples r self) start).
  - apply (load_states_as_at_most r self (count State) document
             (load_temple_as_states r self) start).
  - intros s1 H. rewrite (load_states_returned r self document start s1 H).
    cbn [final]. split; [reflexivity|].
    destruct (load_states_counts self document start) as [_ Heq].
    rewrite (Heq s1 H). reflexivity.
Qed.

Lemma temples_counted_witness :
  let s' := final (load_temple_data_as AtClose self
                     two_regions_document empty_store) in
  load_states self (replace_none two_regions_document)
              (Store [] [] (declare [])) = Returned s' /\
  Temples (print_statistics s') = 2 /\ States (print_statistics s') = 2.
Proof.
  intros s'.
  assert (H : load_states self
                (replace_none two_regions_document)
                (Store [] [] (declare [])) = Returned s')
    by (vm_compute; reflexivity).
  split; [exact H|].
  destruct (temples_counted AtClose self two_regions_document
              empty_store) as (_ & _ & Heq).
  destruct (Heq s' H) as [_ Ht]. split; [exact Ht|].
  vm_compute. reflexivity.
Defined.

(** *** A record that cannot be loaded *)




End StoreFacts.
